(** * witr: ancestry builder, source detector and warning engine

    A shallow embedding of the Go packages [process] (process.go) and
    [detect] (detect.go, detect_linux.go, detect_darwin.go) together with the
    ancestry check of [main].

    Conventions.
    - Go [int] values (process identifiers) are [Z]; the code compares them
      and never does arithmetic that could wrap, except in [itoa], whose
      operands only shrink.
    - Go strings are byte sequences: [string] of the Standard Library.
    - Go maps are [gmap]s, the [seen] map of [BuildAncestry] (a map to [bool]
      used as a set) is a [gset].
    - What the operating system answers is an explicit argument: the process
      table, the file system seen by [os.ReadFile], the output of
      [launchctl], and the clock.
    - [strings.ToLower] is its byte loop on ASCII strings; the Unicode case
      mapping it applies to any other string is an argument, [MapLower],
      about which nothing is assumed.
    - The [float64] confidence literals are the rationals they denote. *)

From Stdlib Require Import ZArith QArith String Ascii List Lia Permutation.
From stdpp Require Import gmap strings list.

Open Scope Z_scope.
Open Scope string_scope.

(** ** Package process *)

Module process.

(** [time.Time], in nanoseconds since the Unix epoch. *)
Definition Time := Z.

Record Process := {
  PID : Z;
  PPID : Z;
  Command : string;
  Cmdline : string;
  User : string;
  StartedAt : Time;
  WorkingDir : string;
  GitRepo : string;
  GitBranch : string;
  Container : string;
  Service : string;
  ListeningPorts : list Z;
  BindAddresses : list string;
  Health : string;
  Env : list string
}.

(** What the platform's reader collects for one identifier: every field
    of [Process] except [PID], which [Read] fills with the identifier it was
    asked for, and [Service], which [Read] leaves at its zero value. *)
Record Stat := {
  st_ppid : Z;
  st_comm : string;
  st_cmdline : string;
  st_user : string;
  st_started : Time;
  st_cwd : string;
  st_git_repo : string;
  st_git_branch : string;
  st_container : string;
  st_ports : list Z;
  st_binds : list string;
  st_health : string;
  st_env : list string
}.

Section Ancestry.

(** The process table: the identifiers whose read succeeds. *)
Variable procs : gmap Z Stat.

(** [Read] of process_linux.go and process_darwin.go: an error when the
    process cannot be inspected, otherwise a [Process] whose [PID] is the
    argument. *)
Definition Read (pid : Z) : option Process :=
  match procs !! pid with
  | None => None
  | Some st =>
      Some {| PID := pid; PPID := st_ppid st; Command := st_comm st;
              Cmdline := st_cmdline st; User := st_user st;
              StartedAt := st_started st; WorkingDir := st_cwd st;
              GitRepo := st_git_repo st; GitBranch := st_git_branch st;
              Container := st_container st; Service := "";
              ListeningPorts := st_ports st; BindAddresses := st_binds st;
              Health := st_health st; Env := st_env st |}
  end.

(** The [for pid > 0 && !seen[pid]] loop of [BuildAncestry]. One unit of
    fuel pays for one evaluation of the loop condition; the final [seen] set
    is returned with the chain, its size is the number of times the body
    ran. *)
Fixpoint walk (fuel : nat) (pid : Z) (seen : gset Z) (chain : list Process)
  : option (list Process * gset Z) :=
  match fuel with
  | O => None
  | S fuel' =>
      if bool_decide (0 < pid) && negb (bool_decide (pid ∈ seen)) then
        let seen' := {[pid]} ∪ seen in
        match Read pid with
        | None => Some (chain, seen')
        | Some p =>
            let chain' := p :: chain in
            if bool_decide (PID p = 1) || bool_decide (PPID p = 0)
            then Some (chain', seen')
            else walk fuel' (PPID p) seen' chain'
        end
      else Some (chain, seen)
  end.

(** [BuildAncestry] returns the chain and a nil error, whatever happened. *)
Definition BuildAncestry (fuel : nat) (pid : Z)
  : option (list Process * option string) :=
  match walk fuel pid ∅ [] with
  | None => None
  | Some (chain, _) => Some (chain, None)
  end.

(** The number of loop iterations of [BuildAncestry]. *)
Definition steps (fuel : nat) (pid : Z) : option nat :=
  match walk fuel pid ∅ [] with
  | None => None
  | Some (_, seen) => Some (size seen)
  end.

(** The identifiers of the parent graph: the readable ones and the
    (positive) parents they name. *)
Definition identifiers : gset Z :=
  dom procs ∪ filter (fun x => 0 < x) (map_to_set (fun _ st => st_ppid st) procs).

(** *** Predicates used to describe the loop *)

(** The four ways one evaluation of the loop condition can go. *)
Inductive walk_case (fuel : nat) (pid : Z) (seen : gset Z)
    (chain : list Process) (r : list Process * gset Z) : Prop :=
| wc_exit :
    (pid <= 0 \/ pid ∈ seen) -> r = (chain, seen) ->
    walk_case fuel pid seen chain r
| wc_read_failed :
    0 < pid -> pid ∉ seen -> Read pid = None ->
    r = (chain, {[pid]} ∪ seen) ->
    walk_case fuel pid seen chain r
| wc_init p :
    0 < pid -> pid ∉ seen -> Read pid = Some p ->
    (PID p = 1 \/ PPID p = 0) -> r = (p :: chain, {[pid]} ∪ seen) ->
    walk_case fuel pid seen chain r
| wc_up p :
    0 < pid -> pid ∉ seen -> Read pid = Some p ->
    PID p <> 1 -> PPID p <> 0 ->
    walk fuel (PPID p) ({[pid]} ∪ seen) (p :: chain) = Some r ->
    walk_case fuel pid seen chain r.

(** Adjacent elements of a chain are parent and child, and the child was
    not the end of the walk. *)
Fixpoint linked (chain : list Process) : Prop :=
  match chain with
  | a :: (b :: _) as rest =>
      PPID b = PID a /\ PID b <> 1 /\ PPID b <> 0 /\ linked rest
  | _ => True
  end.

(** Why the walk stopped above the first element of the chain. *)
Definition stopped (chain : list Process) : Prop :=
  forall h, head chain = Some h ->
    PID h = 1 \/ PPID h = 0 \/ PPID h < 0 \/ PPID h ∈ (PID <$> chain) \/
    procs !! PPID h = None.

Definition pending (pid : Z) (chain : list Process) : Prop :=
  forall h, head chain = Some h -> PPID h = pid /\ PID h <> 1 /\ PPID h <> 0.

Definition all_read (chain : list Process) : Prop :=
  Forall (fun p => Read (PID p) = Some p) chain.

(** The first element is init or has no parent. *)
Definition rooted (chain : list Process) : Prop :=
  exists h, head chain = Some h /\ (PID h = 1 \/ PPID h = 0).

(** What a walk from [target] has to return: a list that ends with the
    process read for [target], made of processes that were read, each the
    parent of the next, with positive identifiers that all differ, and that
    stops above its first element for one of the reasons the loop has. *)
Definition is_ancestry (target : Z) (path : list Process) : Prop :=
  (exists t, last path = Some t /\ PID t = target) /\
  all_read path /\ linked path /\
  Forall (fun p => 0 < PID p) path /\
  NoDup (PID <$> path) /\
  stopped path.

End Ancestry.

(** What [main] does with the result of [BuildAncestry]. *)
Inductive Outcome :=
| ExitError (code : Z)
| Continue (ancestry : list Process) (target : option Process).

Definition main_ancestry (r : list Process * option string) : Outcome :=
  let '(ancestry, err) := r in
  if bool_decide (err ≠ None) || bool_decide (length ancestry = 0%nat)
  then ExitError 1
  else Continue ancestry (last ancestry).

End process.

(** ** The parts of Go's strings and time packages the detector uses *)

Module Strings.

(** [strings.HasPrefix]. *)
Fixpoint HasPrefix (s pre : string) : bool :=
  match pre, s with
  | EmptyString, _ => true
  | String a pre', String b s' => bool_decide (a = b) && HasPrefix s' pre'
  | String _ _, EmptyString => false
  end.

(** [strings.Contains]: some suffix of [s] starts with [substr]. *)
Fixpoint Contains (s substr : string) : bool :=
  HasPrefix s substr ||
  match s with
  | EmptyString => false
  | String _ s' => Contains s' substr
  end.

Definition lower_byte (c : ascii) : ascii :=
  let n := N_of_ascii c in
  if bool_decide (65 <= n)%N && bool_decide (n <= 90)%N
  then ascii_of_N (n + 32) else c.

(** No byte of [s] is [utf8.RuneSelf] (0x80) or above. *)
Fixpoint isASCII (s : string) : bool :=
  match s with
  | EmptyString => true
  | String c s' => bool_decide (N_of_ascii c < 128)%N && isASCII s'
  end.

(** The byte loop [strings.ToLower] runs on an ASCII string: the letters A
    to Z become a to z and every other byte is kept. *)
Fixpoint ToLowerASCII (s : string) : string :=
  match s with
  | EmptyString => EmptyString
  | String c s' => String (lower_byte c) (ToLowerASCII s')
  end.

(** [strings.ToLower]: the byte loop when the string is ASCII, and
    [Map(unicode.ToLower, s)] otherwise. The Unicode mapping of a string
    with a byte of 0x80 or above is the argument [MapLower]; nothing is
    assumed about it. *)
Definition ToLower (MapLower : string -> string) (s : string) : string :=
  if isASCII s then ToLowerASCII s else MapLower s.

Definition is_space (c : ascii) : bool :=
  let n := N_of_ascii c in
  bool_decide (n = 32)%N || (bool_decide (9 <= n)%N && bool_decide (n <= 13)%N).

Fixpoint TrimLeft (s : string) : string :=
  match s with
  | EmptyString => EmptyString
  | String c s' => if is_space c then TrimLeft s' else s
  end.

Fixpoint TrimRight (s : string) : string :=
  match s with
  | EmptyString => EmptyString
  | String c s' =>
      match TrimRight s' with
      | EmptyString => if is_space c then EmptyString else String c EmptyString
      | t => String c t
      end
  end.

(** [strings.TrimSpace] for ASCII white space. *)
Definition TrimSpace (s : string) : string := TrimRight (TrimLeft s).

(** [strings.SplitN(s, sep, 2)] for a one-byte separator: [s] alone when the
    separator does not occur, otherwise the text before its first occurrence
    and the text after it. *)
Fixpoint SplitN2 (s : string) (sep : ascii) : list string :=
  match s with
  | EmptyString => [EmptyString]
  | String c s' =>
      if bool_decide (c = sep) then [EmptyString; s']
      else match SplitN2 s' sep with
           | a :: rest => String c a :: rest
           | [] => [String c EmptyString]
           end
  end.

(** [strings.Split(s, sep)] for a one-byte separator: the pieces between
    the occurrences of [sep], never an empty list. *)
Fixpoint Split (s : string) (sep : ascii) : list string :=
  match s with
  | EmptyString => [EmptyString]
  | String c s' =>
      if bool_decide (c = sep) then EmptyString :: Split s' sep
      else match Split s' sep with
           | a :: rest => String c a :: rest
           | [] => [String c EmptyString]
           end
  end.

(** [strings.LastIndex(s, sep)] for a one-byte separator: the index of its
    last occurrence, or -1. [i] is the index of the first byte of [s]. *)
Fixpoint LastIndex_from (s : string) (sep : ascii) (i found : Z) : Z :=
  match s with
  | EmptyString => found
  | String c s' =>
      LastIndex_from s' sep (i + 1) (if bool_decide (c = sep) then i else found)
  end.

Definition LastIndex (s : string) (sep : ascii) : Z :=
  LastIndex_from s sep 0 (-1).

(** [strings.TrimRight(s, cutset)] for a cutset of one byte. *)
Fixpoint TrimRightByte (s : string) (cut : ascii) : string :=
  match s with
  | EmptyString => EmptyString
  | String c s' =>
      match TrimRightByte s' cut with
      | EmptyString =>
          if bool_decide (c = cut) then EmptyString else String c EmptyString
      | t => String c t
      end
  end.

(** The value of a string of decimal digits, most significant first, on top
    of the value [acc] read so far; [None] at the first byte that is not a
    digit. Used to state what [itoa] prints. *)
Definition digit_value (c : ascii) : option Z :=
  let n := N_of_ascii c in
  if bool_decide (48 <= n)%N && bool_decide (n <= 57)%N
  then Some (Z.of_N n - 48) else None.

Fixpoint decimal_acc (s : string) (acc : Z) : option Z :=
  match s with
  | EmptyString => Some acc
  | String c s' =>
      match digit_value c with
      | Some d => decimal_acc s' (acc * 10 + d)
      | None => None
      end
  end.

Definition decimal (s : string) : option Z :=
  match s with
  | EmptyString => None
  | _ => decimal_acc s 0
  end.

End Strings.

Module time.

(** [time.Duration]: a signed 64-bit count of nanoseconds. *)
Definition Duration := Z.

Definition minDuration : Duration := - 2 ^ 63.
Definition maxDuration : Duration := 2 ^ 63 - 1.
Definition Hour : Duration := 60 * 60 * 1000000000.

(** [Time.Sub]: the difference, saturated to the range of [Duration]. *)
Definition Sub (t u : Z) : Duration :=
  Z.max minDuration (Z.min maxDuration (t - u)).

(** [Duration.Hours]: whole hours plus the remaining nanoseconds as a
    fraction of an hour. The value is kept exact; the detector only compares
    it with 2160, and rounding the sum to [float64] can not move it across
    that integer. *)
Definition Hours (d : Duration) : Q :=
  (inject_Z (Z.quot d Hour) + inject_Z (Z.rem d Hour) / inject_Z Hour)%Q.

End time.

(** ** Package detect *)

Module detect.

Import Strings.

Inductive SourceType :=
| SourceContainer | SourceSystemd | SourceLaunchd | SourceSupervisor
| SourceCron | SourceShell | SourceUnknown.

#[global] Instance SourceType_eq_dec : EqDecision SourceType.
Proof. solve_decision. Defined.

Record Source := {
  Type_ : SourceType;
  Name : string;
  Confidence : Q;
  Details : gmap string string
}.

(** The [Process] interface of detect.go. *)
Class Process (P : Type) := {
  GetPID : P -> Z;
  GetPPID : P -> Z;
  GetCommand : P -> string;
  GetCmdline : P -> string;
  GetUser : P -> string;
  GetWorkingDir : P -> string;
  GetBindAddresses : P -> list string;
  GetHealth : P -> string;
  GetContainer : P -> string;
  GetService : P -> string;
  GetStartedAt : P -> Z
}.

(** The getters of process.go. *)
#[global] Instance process_Process : Process process.Process := {
  GetPID := process.PID;
  GetPPID := process.PPID;
  GetCommand := process.Command;
  GetCmdline := process.Cmdline;
  GetUser := process.User;
  GetWorkingDir := process.WorkingDir;
  GetBindAddresses := process.BindAddresses;
  GetHealth := process.Health;
  GetContainer := process.Container;
  GetService := process.Service;
  GetStartedAt := process.StartedAt
}.

(** The two builds of [detectInit]. *)
Inductive GOOS := linux | darwin.

(** The loop of [itoa]: [i] bytes of the 20-byte buffer are still free. *)
Fixpoint itoa_loop (i : nat) (n : Z) (b : string) : string :=
  match i with
  | O => b
  | S i' =>
      if bool_decide (0 < n)
      then itoa_loop i' (Z.quot n 10)
             (String (ascii_of_N (Z.to_N (48 + Z.rem n 10))) b)
      else b
  end.

Definition itoa (n : Z) : string :=
  if bool_decide (n = 0) then "0" else itoa_loop 20 n "".

Definition supervisors : gmap string string :=
  list_to_map
    [("pm2", "pm2"); ("pm2 god", "pm2"); ("supervisord", "supervisord");
     ("gunicorn", "gunicorn"); ("uwsgi", "uwsgi"); ("s6-supervise", "s6");
     ("s6", "s6"); ("runsv", "runit"); ("runit", "runit");
     ("openrc", "openrc"); ("monit", "monit"); ("circusd", "circus");
     ("circus", "circus"); ("daemontools", "daemontools"); ("tini", "tini");
     ("docker-init", "docker-init")].

Definition shells : gmap string bool :=
  list_to_map [("bash", true); ("zsh", true); ("sh", true); ("fish", true)].

(** A [for sup, name := range supervisors] statement visits the entries in
    an order the language leaves unspecified and the runtime varies from one
    execution of the statement to the next. [RangeOrder] gives the order used
    by the statement executed for ancestor [i]. *)
Definition RangeOrder := nat -> list (string * string).

Definition valid_order (order : RangeOrder) : Prop :=
  forall i, order i ≡ₚ map_to_list supervisors.

(** The body of that range statement: the name of the first visited entry
    whose key occurs in the command line. *)
Fixpoint rangeSupervisors (entries : list (string * string)) (cmdline : string)
  : option string :=
  match entries with
  | [] => None
  | (sup, name) :: rest =>
      if Contains cmdline sup then Some name
      else rangeSupervisors rest cmdline
  end.

(** [getLaunchdLabel] after [launchctl blame] has answered with [out]
    ([None] when the command failed). *)
Definition parseLaunchdLabel (out : option string) : string * string :=
  match out with
  | None => ("", "")
  | Some out =>
      let line := TrimSpace out in
      if negb (Contains line "/") then ("", "")
      else
        let parts := SplitN2 line "/" in
        match parts with
        | domain :: label :: _ =>
            if bool_decide (domain = "gui") then
              match SplitN2 label "/" with
              | [sub0; sub1] => (sub1, "gui/" ++ sub0)
              | _ => (label, domain)
              end
            else (label, domain)
        | _ => (line, "")
        end
  end.

Section Detector.

Context {P : Type} `{Process P}.

(** [Map(unicode.ToLower, s)] of the strings package, used by
    [strings.ToLower] on strings that are not ASCII. *)
Variable MapLower : string -> string.
(** [os.ReadFile]: the content of a path, or an error. *)
Variable ReadFile : string -> option string.
(** The output of [launchctl blame <pid>], or an error. *)
Variable launchctl_blame : Z -> option string.
(** [time.Now]. *)
Variable now : Z.
Variable goos : GOOS.
Variable order : RangeOrder.

Definition unknown : Source :=
  {| Type_ := SourceUnknown; Name := ""; Confidence := 0.2; Details := ∅ |}.

Definition container : Source :=
  {| Type_ := SourceContainer; Name := "container"; Confidence := 0.9;
     Details := ∅ |}.

Definition supervisor (name : string) (confidence : Q) : Source :=
  {| Type_ := SourceSupervisor; Name := name; Confidence := confidence;
     Details := ∅ |}.

Definition has_container_marker (s : string) : bool :=
  Contains s "docker" || Contains s "containerd" || Contains s "kubepods".

Fixpoint detectContainer (ancestry : list P) : option Source :=
  match ancestry with
  | [] => None
  | p :: rest =>
      match ReadFile ("/proc/" ++ itoa (GetPID p) ++ "/cgroup") with
      | None => detectContainer rest
      | Some s =>
          if has_container_marker s then Some container
          else detectContainer rest
      end
  end.

(** The loop [for i := len(ancestry) - 1; i >= 0; i--] with [n = i + 1]. *)
Fixpoint detectSupervisor_loop (ancestry : list P) (n : nat) : option Source :=
  match n with
  | O => None
  | S i =>
      match ancestry !! i with
      | None => None
      | Some p =>
          let cmd := ToLower MapLower (GetCommand p) in
          let cmdline := ToLower MapLower (GetCmdline p) in
          if Contains cmd "pm2" || Contains cmdline "pm2"
          then Some (supervisor "pm2" 0.9)
          else
            match supervisors !! cmd with
            | Some name => Some (supervisor name 0.7)
            | None =>
                match rangeSupervisors (order i) cmdline with
                | Some name => Some (supervisor name 0.7)
                | None => detectSupervisor_loop ancestry i
                end
            end
      end
  end.

Definition detectSupervisor (ancestry : list P) : option Source :=
  detectSupervisor_loop ancestry (length ancestry).

Fixpoint detectCron_loop (ancestry : list P) (n : nat) : option Source :=
  match n with
  | O => None
  | S i =>
      match ancestry !! i with
      | None => None
      | Some p =>
          let cmd := GetCommand p in
          if bool_decide (cmd = "cron") || bool_decide (cmd = "crond")
          then Some {| Type_ := SourceCron; Name := "cron";
                       Confidence := 0.6; Details := ∅ |}
          else detectCron_loop ancestry i
      end
  end.

Definition detectCron (ancestry : list P) : option Source :=
  detectCron_loop ancestry (length ancestry).

Fixpoint detectShell_loop (ancestry : list P) (n : nat) : option Source :=
  match n with
  | O => None
  | S i =>
      match ancestry !! i with
      | None => None
      | Some p =>
          if default false (shells !! GetCommand p)
          then Some {| Type_ := SourceShell; Name := GetCommand p;
                       Confidence := 0.5; Details := ∅ |}
          else detectShell_loop ancestry i
      end
  end.

Definition detectShell (ancestry : list P) : option Source :=
  detectShell_loop ancestry (length ancestry).

(** detect_linux.go *)
Fixpoint detectInit_linux (ancestry : list P) : option Source :=
  match ancestry with
  | [] => None
  | p :: rest =>
      if bool_decide (GetPID p = 1) && bool_decide (GetCommand p = "systemd")
      then Some {| Type_ := SourceSystemd; Name := "systemd";
                   Confidence := 0.8; Details := ∅ |}
      else detectInit_linux rest
  end.

(** detect_darwin.go *)
Definition getLaunchdLabel (pid : Z) : string * string :=
  parseLaunchdLabel (launchctl_blame pid).

Definition launchd : Source :=
  {| Type_ := SourceLaunchd; Name := "launchd"; Confidence := 0.8;
     Details := ∅ |}.

(** The range loop of the darwin [detectInit]; [ancestry] is the whole
    slice, [rest] what the loop has still to visit. *)
Fixpoint detectInit_darwin_loop (ancestry rest : list P) : option Source :=
  match rest with
  | [] => None
  | p :: rest' =>
      if bool_decide (GetPID p = 1) && bool_decide (GetCommand p = "launchd")
      then
        match last ancestry with
        | Some target =>
            let '(label, domain) := getLaunchdLabel (GetPID target) in
            if bool_decide (label <> "")
            then Some {| Type_ := SourceLaunchd; Name := label;
                         Confidence := 0.9;
                         Details := {[ "domain" := domain ]} |}
            else Some launchd
        | None => Some launchd
        end
      else detectInit_darwin_loop ancestry rest'
  end.

Definition detectInit (ancestry : list P) : option Source :=
  match goos with
  | linux => detectInit_linux ancestry
  | darwin => detectInit_darwin_loop ancestry ancestry
  end.

Definition Detect (ancestry : list P) : Source :=
  match detectContainer ancestry with
  | Some src => src
  | None =>
  match detectSupervisor ancestry with
  | Some src => src
  | None =>
  match detectCron ancestry with
  | Some src => src
  | None =>
  match detectShell ancestry with
  | Some src => src
  | None =>
  match detectInit ancestry with
  | Some src => src
  | None => unknown
  end end end end end.

Fixpoint isPublicBind (addrs : list string) : bool :=
  match addrs with
  | [] => false
  | a :: rest =>
      if bool_decide (a = "0.0.0.0") || bool_decide (a = "::") then true
      else isPublicBind rest
  end.

Definition health_warning (health : string) : list string :=
  if bool_decide (health = "zombie") then ["Process is a zombie (defunct)"]
  else if bool_decide (health = "stopped") then ["Process is stopped"]
  else if bool_decide (health = "high-cpu")
       then ["Process is using high CPU (>2h total)"]
  else if bool_decide (health = "high-mem")
       then ["Process is using high memory (>1GB RSS)"]
  else [].

Definition Warnings (ancestry : list P) : list string :=
  match last ancestry with
  | None => []
  | Some last =>
      let w := health_warning (GetHealth last) in
      let w :=
        if isPublicBind (GetBindAddresses last)
        then (w ++ ["Process is listening on a public interface"])%list
        else w in
      let w :=
        if bool_decide (GetUser last = "root")
        then (w ++ ["Process is running as root"])%list else w in
      let w :=
        let dir := GetWorkingDir last in
        if bool_decide (dir = "/") || bool_decide (dir = "/tmp")
           || bool_decide (dir = "/var/tmp")
        then (w ++ [String.append "Process running from suspicious directory: " dir])%list
        else w in
      let w :=
        if negb (Qle_bool (time.Hours (time.Sub now (GetStartedAt last)))
                          (inject_Z (90 * 24)))
        then (w ++ ["Process has been running for over 90 days"])%list else w in
      let w :=
        if bool_decide (Type_ (Detect ancestry) = SourceUnknown)
        then (w ++ ["No known supervisor detected"])%list else w in
      w
  end.

(** *** Predicates used to state the detector's properties *)

(** Some process of the ancestry has a readable cgroup file with a container
    marker. *)
Definition container_evidence (ancestry : list P) : Prop :=
  exists p s, p ∈ ancestry /\
    ReadFile ("/proc/" ++ itoa (GetPID p) ++ "/cgroup") = Some s /\
    has_container_marker s = true.

(** The three tests [detectSupervisor] makes on one process. *)
Definition pm2_match (p : P) : bool :=
  Contains (ToLower MapLower (GetCommand p)) "pm2"
  || Contains (ToLower MapLower (GetCmdline p)) "pm2".

Definition registry_match (p : P) : option string :=
  supervisors !! ToLower MapLower (GetCommand p).

Definition cmdline_match (p : P) : Prop :=
  exists sup name, supervisors !! sup = Some name /\
    Contains (ToLower MapLower (GetCmdline p)) sup = true.

Definition no_supervisor_match (p : P) : Prop :=
  pm2_match p = false /\ registry_match p = None /\ ~ cmdline_match p.

(** A registered supervisor name is the command of some process. *)
Definition names_supervisor (ancestry : list P) : Prop :=
  exists p name, p ∈ ancestry /\ registry_match p = Some name.

(** One rule of the warning engine: at most one entry. *)
Definition rule (fires : bool) (warning : string) : list string :=
  if fires then [warning] else [].

Definition suspicious_dir (dir : string) : bool :=
  bool_decide (dir = "/") || bool_decide (dir = "/tmp")
  || bool_decide (dir = "/var/tmp").

Definition long_running (started : Z) : bool :=
  negb (Qle_bool (time.Hours (time.Sub now started)) (inject_Z (90 * 24))).

End Detector.

Definition public_warning : string :=
  "Process is listening on a public interface".
Definition root_warning : string := "Process is running as root".
Definition dir_warning (dir : string) : string :=
  String.append "Process running from suspicious directory: " dir.
Definition age_warning : string :=
  "Process has been running for over 90 days".
Definition unknown_warning : string := "No known supervisor detected".

End detect.

(** ** process_linux.go: the pure parts of the reader *)

Module process_linux.

Import Strings.

(** [detectContainer(pid)] once the cgroup file has been read ([None] when
    it could not be). *)
Definition detectContainer (cgroup : option string) : string :=
  match cgroup with
  | None => ""
  | Some s =>
      if Contains s "docker" then "docker"
      else if Contains s "containerd" then "containerd"
      else if Contains s "kubepods" then "kubernetes"
      else ""
  end.

Definition parentDir (path : string) : string :=
  let idx := LastIndex path "/" in
  if bool_decide (idx <= 0) then ""
  else String.substring 0 (Z.to_nat idx) path.

Section Reader.

(** [isDir]: what [os.Stat] says about a path. *)
Variable isDir : string -> bool.
(** [strconv.ParseInt(s, 16, 32)] with the error dropped. *)
Variable ParseInt16 : string -> Z.
(** [hex.DecodeString] with the error dropped: the bytes decoded. *)
Variable DecodeString : string -> list Z.
(** [%d] of [fmt.Sprintf] for one byte. *)
Variable fmt_d : Z -> string.

(** The loop of [readGitRepo], started at the working directory. *)
Fixpoint readGitRepo_loop (fuel : nat) (dir : string) : option string :=
  match fuel with
  | O => None
  | S fuel' =>
      if bool_decide (dir <> "/") && bool_decide (dir <> "") then
        if isDir (dir ++ "/.git") then
          let parts := Split (TrimRightByte dir "/") "/" in
          Some (List.last parts "")
        else readGitRepo_loop fuel' (parentDir dir)
      else Some ""
  end.

Definition parseAddr (raw : string) (ipv6 : bool) : string * Z :=
  let parts := Split raw ":" in
  match parts with
  | p0 :: p1 :: _ =>
      let port := ParseInt16 p1 in
      if ipv6 then ("::", port)
      else
        match DecodeString p0 with
        | b0 :: b1 :: b2 :: b3 :: _ =>
            (fmt_d b3 ++ "." ++ fmt_d b2 ++ "." ++ fmt_d b1 ++ "." ++ fmt_d b0,
             port)
        | _ => ("", port)
        end
  | _ => ("", 0)
  end.

End Reader.

End process_linux.

(** ** Predicates used to state further properties of the detector *)

Module detect_spec.

Import detect.

(** Two verdicts that differ at most in the name. *)
Definition same_verdict (a b : option Source) : Prop :=
  match a, b with
  | None, None => True
  | Some x, Some y =>
      Type_ x = Type_ y /\ Confidence x = Confidence y /\
      Details x = Details y
  | _, _ => False
  end.

(** The categories and confidences [Detect] can return. *)
Definition verdicts : list (SourceType * Q) :=
  [ (SourceContainer, 0.9%Q); (SourceSupervisor, 0.9%Q);
    (SourceSupervisor, 0.7%Q); (SourceCron, 0.6%Q); (SourceShell, 0.5%Q);
    (SourceSystemd, 0.8%Q); (SourceLaunchd, 0.9%Q); (SourceLaunchd, 0.8%Q);
    (SourceUnknown, 0.2%Q) ].

Definition cron : Source :=
  {| Type_ := SourceCron; Name := "cron"; Confidence := 0.6; Details := ∅ |}.

Definition shell (name : string) : Source :=
  {| Type_ := SourceShell; Name := name; Confidence := 0.5; Details := ∅ |}.

Definition is_cron {P} `{Process P} (p : P) : Prop :=
  GetCommand p = "cron" \/ GetCommand p = "crond".

Definition is_shell {P} `{Process P} (p : P) : Prop :=
  GetCommand p ∈ ["bash"; "zsh"; "sh"; "fish"].

(** The four health labels that have an advisory, with the advisory. *)
Definition health_table : list (string * string) :=
  [ ("zombie", "Process is a zombie (defunct)");
    ("stopped", "Process is stopped");
    ("high-cpu", "Process is using high CPU (>2h total)");
    ("high-mem", "Process is using high memory (>1GB RSS)") ].

End detect_spec.

(** ** Process tables and ancestries used as examples *)

Module fixtures.

Import process.

Definition mkStat (ppid : Z) (comm cmdline : string) : Stat :=
  {| st_ppid := ppid; st_comm := comm; st_cmdline := cmdline;
     st_user := "app"; st_started := 0; st_cwd := "/srv";
     st_git_repo := ""; st_git_branch := ""; st_container := "";
     st_ports := []; st_binds := []; st_health := "healthy";
     st_env := [] |}.

(** Two processes that name each other as parent. *)
Definition two_cycle : gmap Z Stat :=
  {[ 10 := mkStat 20 "a" "a"; 20 := mkStat 10 "b" "b" ]}.

(** Process 5 names 7 as its parent, and 7 can not be read. *)
Definition orphan : gmap Z Stat := {[ 5 := mkStat 7 "job" "job --run" ]}.

Definition orphan_5 : Process :=
  {| PID := 5; PPID := 7; Command := "job"; Cmdline := "job --run";
     User := "app"; StartedAt := 0; WorkingDir := "/srv"; GitRepo := "";
     GitBranch := ""; Container := ""; Service := ""; ListeningPorts := [];
     BindAddresses := []; Health := "healthy"; Env := [] |}.

(** A job below a daemon whose own parent, 7, can not be read. *)
Definition cut_tree : gmap Z Stat :=
  {[ 40 := mkStat 7 "sshd" "sshd -D"; 41 := mkStat 40 "job" "job --run" ]}.

(** init, a daemon below it, and a job below the daemon. *)
Definition healthy_tree : gmap Z Stat :=
  {[ 1 := mkStat 0 "systemd" "/sbin/init"; 40 := mkStat 1 "sshd" "sshd -D";
     41 := mkStat 40 "job" "job --run" ]}.

(** Worlds and ancestries for the detector. *)

Definition mkProcess (pid ppid : Z) (comm cmdline user : string)
    (binds : list string) (dir : string) : Process :=
  {| PID := pid; PPID := ppid; Command := comm; Cmdline := cmdline;
     User := user; StartedAt := 0; WorkingDir := dir; GitRepo := "";
     GitBranch := ""; Container := ""; Service := ""; ListeningPorts := [];
     BindAddresses := binds; Health := "healthy"; Env := [] |}.

(** A stand-in for the Unicode case mapping: the strings of the examples
    are ASCII, for which [strings.ToLower] does not consult it. *)
Definition id_map : string -> string := fun s => s.

Definition no_files : string -> option string := fun _ => None.

(** Only process 1 sits in a Kubernetes pod. *)
Definition pod_files : string -> option string := fun path =>
  if bool_decide (path = "/proc/1/cgroup")
  then Some "0::/kubepods/besteffort/pod42" else None.

Definition no_launchctl : Z -> option string := fun _ => None.

Definition gui_launchctl : Z -> option string := fun pid =>
  if bool_decide (pid = 77) then Some "gui/501/com.example.agent" else None.

Definition day : Z := 24 * time.Hour.

(** The entries of the registry in the order [map_to_list] gives, and in the
    opposite order. *)
Definition forward_order : detect.RangeOrder :=
  fun _ => map_to_list detect.supervisors.
Definition backward_order : detect.RangeOrder :=
  fun _ => reverse (map_to_list detect.supervisors).

(** A supervisor started through an interpreter: the command is the
    interpreter, the command line names supervisord and a monit path. *)
Definition wrapped_supervisor : list Process :=
  [ mkProcess 1 0 "init" "/sbin/init" "root" [] "/";
    mkProcess 300 1 "python"
      "python /usr/bin/supervisord -c /etc/monit/supervisord.conf" "root" []
      "/";
    mkProcess 301 300 "worker" "worker --id 1" "app" [] "/srv" ].

(** A container at the top, supervisord right above the target. *)
Definition supervised_in_pod : list Process :=
  [ mkProcess 1 0 "tini" "tini -- supervisord" "root" [] "/";
    mkProcess 8 1 "supervisord" "supervisord -n" "root" [] "/";
    mkProcess 9 8 "node" "node app.js" "app" [] "/app" ].

(** root, bound to every interface, healthy, started 120 days ago, with
    nothing above it that the detector knows. *)
Definition exposed_root_job : list Process :=
  [ mkProcess 300 200 "myjob" "myjob --serve" "root" ["0.0.0.0"] "/srv" ].

(** The same target below systemd. *)
Definition exposed_root_service : list Process :=
  [ mkProcess 1 0 "systemd" "/sbin/init" "root" [] "/";
    mkProcess 300 1 "myjob" "myjob --serve" "root" ["0.0.0.0"] "/srv" ].

Definition loopback_service : list Process :=
  [ mkProcess 1 0 "systemd" "/sbin/init" "root" [] "/";
    mkProcess 300 1 "myjob" "myjob --serve" "app" ["127.0.0.1"] "/srv" ].

Definition launchd_agent : list Process :=
  [ mkProcess 1 0 "launchd" "/sbin/launchd" "root" [] "/";
    mkProcess 77 1 "agent" "agent --run" "me" [] "/Users/me" ].

End fixtures.

(** * Properties of the ancestry builder *)

Module process_facts.

Import process.

Section Walk.

Variable procs : gmap Z Stat.

Lemma Read_Some pid p :
  Read procs pid = Some p -> PID p = pid /\ is_Some (procs !! pid).
Proof.
  unfold Read. destruct (procs !! pid) as [st|]; [|discriminate].
  intros [= <-]. split; [reflexivity | eauto].
Qed.

Lemma Read_None pid : Read procs pid = None <-> procs !! pid = None.
Proof.
  unfold Read. destruct (procs !! pid); split; congruence.
Qed.

Lemma Read_is_Some pid :
  is_Some (procs !! pid) -> exists p, Read procs pid = Some p /\ PID p = pid.
Proof.
  intros [st Hst]. unfold Read. rewrite Hst. eexists. split; reflexivity.
Qed.

Lemma walk_inv fuel pid seen chain r :
  walk procs (S fuel) pid seen chain = Some r ->
  walk_case procs fuel pid seen chain r.
Proof.
  simpl.
  destruct (bool_decide (0 < pid)) eqn:Hpos; simpl.
  2:{ apply bool_decide_eq_false in Hpos. intros [= <-].
      apply wc_exit; [left; lia | reflexivity]. }
  apply bool_decide_eq_true in Hpos.
  destruct (bool_decide (pid ∈ seen)) eqn:Hseen; simpl.
  { apply bool_decide_eq_true in Hseen. intros [= <-].
    apply wc_exit; [right; assumption | reflexivity]. }
  apply bool_decide_eq_false in Hseen.
  destruct (Read procs pid) as [p|] eqn:Hread.
  2:{ intros [= <-]. now apply wc_read_failed. }
  destruct (bool_decide (PID p = 1)) eqn:H1; simpl.
  { apply bool_decide_eq_true in H1. intros [= <-].
    eapply wc_init; eauto. }
  apply bool_decide_eq_false in H1.
  destruct (bool_decide (PPID p = 0)) eqn:H0; simpl.
  { apply bool_decide_eq_true in H0. intros [= <-].
    eapply wc_init; eauto. }
  apply bool_decide_eq_false in H0.
  intros Hw. eapply wc_up; eauto.
Qed.

Lemma walk_exit fuel pid seen chain :
  pid <= 0 \/ pid ∈ seen ->
  walk procs (S fuel) pid seen chain = Some (chain, seen).
Proof.
  intros Hex. simpl.
  destruct Hex as [Hle | Hin].
  - rewrite bool_decide_eq_false_2 by lia. reflexivity.
  - rewrite (bool_decide_eq_true_2 (pid ∈ seen)) by assumption.
    rewrite andb_false_r. reflexivity.
Qed.

Lemma walk_enter fuel pid seen chain :
  0 < pid -> pid ∉ seen ->
  walk procs (S fuel) pid seen chain =
  match Read procs pid with
  | None => Some (chain, {[pid]} ∪ seen)
  | Some p =>
      if bool_decide (PID p = 1) || bool_decide (PPID p = 0)
      then Some (p :: chain, {[pid]} ∪ seen)
      else walk procs fuel (PPID p) ({[pid]} ∪ seen) (p :: chain)
  end.
Proof.
  intros Hpos Hns. simpl.
  rewrite bool_decide_eq_true_2 by assumption.
  rewrite bool_decide_eq_false_2 by assumption. reflexivity.
Qed.

(** More fuel does not change a result. *)
Lemma walk_fuel_mono fuel fuel' pid seen chain r :
  walk procs fuel pid seen chain = Some r -> (fuel <= fuel')%nat ->
  walk procs fuel' pid seen chain = Some r.
Proof.
  revert fuel' pid seen chain.
  induction fuel as [|fuel IH]; intros fuel' pid seen chain Hw Hle;
    [discriminate|].
  destruct fuel' as [|fuel']; [lia|].
  simpl in *.
  destruct (bool_decide (0 < pid) && negb (bool_decide (pid ∈ seen)));
    [|assumption].
  destruct (Read procs pid) as [p|]; [|assumption].
  destruct (bool_decide (PID p = 1) || bool_decide (PPID p = 0));
    [assumption|].
  apply IH; [assumption | lia].
Qed.

(** The loop ends: every iteration that goes on has read an identifier of
    the table that was not yet in [seen]. *)
Lemma walk_terminates fuel pid seen chain :
  (size (dom procs ∖ seen) < fuel)%nat ->
  is_Some (walk procs fuel pid seen chain).
Proof.
  revert pid seen chain.
  induction fuel as [|fuel IH]; intros pid seen chain Hsz; [lia|].
  simpl.
  destruct (bool_decide (0 < pid)) eqn:Hpos; simpl; [|eauto].
  destruct (bool_decide (pid ∈ seen)) eqn:Hseen; simpl; [eauto|].
  apply bool_decide_eq_false in Hseen.
  destruct (Read procs pid) as [p|] eqn:Hread; [|eauto].
  destruct (bool_decide (PID p = 1) || bool_decide (PPID p = 0)); [eauto|].
  apply IH.
  apply Read_Some in Hread as [_ Hin%elem_of_dom].
  assert (dom procs ∖ ({[pid]} ∪ seen) ⊂ dom procs ∖ seen) as Hsub.
  { split.
    - intros x. rewrite !elem_of_difference, elem_of_union. tauto.
    - intros Hc. specialize (Hc pid).
      rewrite !elem_of_difference, elem_of_union, elem_of_singleton in Hc.
      tauto. }
  apply subset_size in Hsub. lia.
Qed.

Lemma walk_chain fuel pid seen chain chain' seen' :
  walk procs fuel pid seen chain = Some (chain', seen') ->
  linked chain -> pending pid chain -> all_read procs chain ->
  NoDup (PID <$> chain) -> (forall x, x ∈ seen <-> x ∈ (PID <$> chain)) ->
  (exists pre, chain' = (pre ++ chain)%list) /\
  linked chain' /\ stopped procs chain' /\ all_read procs chain' /\
  NoDup (PID <$> chain') /\ (length chain' <= size seen')%nat.
Proof.
  revert pid seen chain.
  induction fuel as [|fuel IH]; intros pid seen chain Hw Hl Hp Hr Hnd Hs;
    [discriminate|].
  assert (length chain <= size seen)%nat as Hlen.
  { rewrite <- (length_fmap PID chain).
    rewrite <- (size_list_to_set (C := gset Z) (PID <$> chain)) by assumption.
    apply subseteq_size. intros x Hx. apply elem_of_list_to_set in Hx.
    apply Hs. assumption. }
  apply walk_inv in Hw as [Hex [= -> ->] | Hpos Hns Hrd [= -> ->]
                          | p Hpos Hns Hrd Hinit [= -> ->]
                          | p Hpos Hns Hrd Hn1 Hn0 Hw].
  - split; [exists []; reflexivity|].
    repeat split; try assumption.
    intros h Hh. destruct (Hp h Hh) as (Hpp & _ & _). rewrite Hpp.
    destruct Hex as [Hle | Hin].
    + destruct (decide (pid = 0)); [right; left; assumption |].
      right; right; left. lia.
    + right; right; right; left. apply Hs. assumption.
  - split; [exists []; reflexivity|].
    repeat split; try assumption.
    + intros h Hh. destruct (Hp h Hh) as (Hpp & _ & _). rewrite Hpp.
      right; right; right; right. apply Read_None. assumption.
    + rewrite size_union by (apply disjoint_singleton_l; assumption). lia.
  - pose proof (Read_Some _ _ Hrd) as [Hpid _].
    split; [exists [p]; reflexivity|].
    repeat split.
    + destruct chain as [|h t]; [exact I|].
      destruct (Hp h eq_refl) as (Hpp & H1 & H0). simpl.
      repeat split; try assumption. congruence.
    + intros h [= <-]. destruct Hinit; [left | right; left]; assumption.
    + constructor; [congruence | assumption].
    + rewrite fmap_cons. constructor; [|assumption].
      rewrite Hpid. rewrite <- Hs. assumption.
    + rewrite size_union by (apply disjoint_singleton_l; assumption). rewrite size_singleton.
      simpl. lia.
  - pose proof (Read_Some _ _ Hrd) as [Hpid _].
    apply IH in Hw.
    + destruct Hw as ((pre & ->) & Hrest).
      split; [|exact Hrest].
      exists (pre ++ [p])%list. rewrite <- app_assoc. reflexivity.
    + destruct chain as [|h t]; [exact I|].
      destruct (Hp h eq_refl) as (Hpp & H1 & H0). simpl.
      repeat split; try assumption. congruence.
    + intros h [= <-]. repeat split; assumption.
    + constructor; [congruence | assumption].
    + rewrite fmap_cons. constructor; [|assumption].
      rewrite Hpid. rewrite <- Hs. assumption.
    + intros x.
      rewrite fmap_cons, elem_of_cons, <- Hs, Hpid, elem_of_union,
        elem_of_singleton. reflexivity.
Qed.

(** Every identifier the loop visits is the one it started from or the
    positive parent of a process it has read. *)
Lemma walk_seen (X : gset Z) fuel pid seen chain chain' seen' :
  walk procs fuel pid seen chain = Some (chain', seen') ->
  (0 < pid -> pid ∈ X) ->
  (forall q st, procs !! q = Some st -> 0 < st_ppid st -> st_ppid st ∈ X) ->
  seen ⊆ X -> seen' ⊆ X.
Proof.
  intros Hw Hpid HX. revert pid seen chain Hw Hpid.
  induction fuel as [|fuel IH]; intros pid seen chain Hw Hpid Hsub;
    [discriminate|].
  apply walk_inv in Hw as [Hex [= -> ->] | Hpos Hns Hrd [= -> ->]
                          | p Hpos Hns Hrd Hinit [= -> ->]
                          | p Hpos Hns Hrd Hn1 Hn0 Hw].
  - assumption.
  - apply union_subseteq. split; [apply singleton_subseteq_l|]; auto.
  - apply union_subseteq. split; [apply singleton_subseteq_l|]; auto.
  - eapply IH; [exact Hw | |].
    2:{ apply union_subseteq. split; [apply singleton_subseteq_l|]; auto. }
    unfold Read in Hrd. destruct (procs !! pid) as [st|] eqn:Hst;
      [|discriminate].
    injection Hrd as <-. simpl. intros Hpp. eapply HX; eauto.
Qed.


Lemma walk_suffix fuel pid seen chain chain' seen' :
  walk procs fuel pid seen chain = Some (chain', seen') ->
  exists pre, chain' = (pre ++ chain)%list.
Proof.
  revert pid seen chain.
  induction fuel as [|fuel IH]; intros pid seen chain Hw; [discriminate|].
  apply walk_inv in Hw as [Hex [= -> ->] | Hpos Hns Hrd [= -> ->]
                          | p Hpos Hns Hrd Hinit [= -> ->]
                          | p Hpos Hns Hrd Hn1 Hn0 Hw].
  - exists []. reflexivity.
  - exists []. reflexivity.
  - exists [p]. reflexivity.
  - apply IH in Hw as [pre ->]. exists (pre ++ [p])%list.
    rewrite <- app_assoc. reflexivity.
Qed.

(** When the identifier the loop starts from can be read, the process read
    for it ends up right in front of the old chain. *)
Lemma walk_target fuel pid seen chain chain' seen' :
  walk procs fuel pid seen chain = Some (chain', seen') ->
  0 < pid -> pid ∉ seen -> is_Some (procs !! pid) ->
  exists pre t, chain' = (pre ++ t :: chain)%list /\ PID t = pid.
Proof.
  intros Hw Hpos Hns Hsome.
  destruct fuel as [|fuel]; [discriminate|].
  apply Read_is_Some in Hsome as (t & Ht & Hpid).
  apply walk_inv in Hw as [Hex [= -> ->] | _ _ Hrd [= -> ->]
                          | p _ _ Hrd Hinit [= -> ->]
                          | p _ _ Hrd Hn1 Hn0 Hw].
  - destruct Hex; [lia | contradiction].
  - congruence.
  - exists [], t. simpl. split; congruence.
  - apply walk_suffix in Hw as [pre ->]. exists pre, t. split; congruence.
Qed.

(** In a linked chain of processes that were all read, only the first
    element can have a parent that can not be read. *)
Lemma linked_parent_read chain p :
  linked chain -> all_read procs chain -> p ∈ chain ->
  head chain = Some p \/ is_Some (procs !! PPID p).
Proof.
  induction chain as [|a chain IH]; intros Hl Hr Hin;
    [apply elem_of_nil in Hin; contradiction|].
  apply elem_of_cons in Hin as [-> | Hin]; [left; reflexivity|].
  right. destruct chain as [|b chain];
    [apply elem_of_nil in Hin; contradiction|].
  destruct Hl as (Hpp & _ & _ & Hl).
  apply Forall_cons in Hr as [Ha Hr].
  destruct (IH Hl Hr Hin) as [[= <-] | Hs]; [|assumption].
  rewrite Hpp. apply Read_Some in Ha as [_ Ha]. assumption.
Qed.

Lemma walk_start fuel target :
  (size (dom procs) < fuel)%nat ->
  exists chain seen, walk procs fuel target ∅ [] = Some (chain, seen).
Proof.
  intros Hf.
  destruct (walk_terminates fuel target ∅ []) as [[chain seen] Hw].
  - rewrite difference_empty_L. assumption.
  - eauto.
Qed.

Lemma walk_start_chain fuel target chain seen :
  walk procs fuel target ∅ [] = Some (chain, seen) ->
  linked chain /\ stopped procs chain /\ all_read procs chain /\
  NoDup (PID <$> chain) /\ (length chain <= size seen)%nat.
Proof.
  intros Hw. eapply walk_chain in Hw.
  - exact (proj2 Hw).
  - exact I.
  - intros h [=].
  - constructor.
  - constructor.
  - intros x. rewrite fmap_nil, elem_of_nil.
    split; [apply not_elem_of_empty | tauto].
Qed.

Lemma chain_in_dom chain :
  all_read procs chain -> NoDup (PID <$> chain) ->
  (length chain <= size (dom procs))%nat.
Proof.
  intros Hr Hnd.
  rewrite <- (length_fmap PID chain).
  rewrite <- (size_list_to_set (C := gset Z) (PID <$> chain)) by assumption.
  apply subseteq_size. intros x Hx.
  apply elem_of_list_to_set, list_elem_of_fmap in Hx as (p & -> & Hp).
  unfold all_read in Hr. rewrite Forall_forall in Hr.
  apply Hr, Read_Some in Hp as [_ Hp]. apply elem_of_dom. assumption.
Qed.

Lemma walk_positive fuel pid seen chain chain' seen' :
  walk procs fuel pid seen chain = Some (chain', seen') ->
  Forall (fun p => 0 < PID p) chain ->
  Forall (fun p => 0 < PID p) chain'.
Proof.
  revert pid seen chain.
  induction fuel as [|fuel IH]; intros pid seen chain Hw Hpos;
    [discriminate|].
  apply walk_inv in Hw as [Hex [= -> ->] | Hp Hns Hrd [= -> ->]
                          | p Hp Hns Hrd Hinit [= -> ->]
                          | p Hp Hns Hrd Hn1 Hn0 Hw].
  - assumption.
  - assumption.
  - apply Read_Some in Hrd as [Hpid _]. constructor; [lia | assumption].
  - apply Read_Some in Hrd as [Hpid _].
    eapply IH; [exact Hw|]. constructor; [lia | assumption].
Qed.

Lemma linked_adjacent (l1 l2 : list Process) (a b : Process) :
  linked (l1 ++ a :: b :: l2) ->
  PPID b = PID a /\ PID b <> 1 /\ PPID b <> 0.
Proof.
  induction l1 as [|x l1 IH]; intros Hl.
  - destruct Hl as (H1 & H2 & H3 & _). auto.
  - apply IH. destruct l1 as [|z l1]; simpl in Hl |- *; tauto.
Qed.

(** The loop, started where a list with the properties of [is_ancestry]
    has still [todo] in front of what is already in the chain, returns that
    list. *)
Lemma walk_along (path : list Process) :
  all_read procs path -> linked path ->
  Forall (fun p => 0 < PID p) path -> NoDup (PID <$> path) ->
  stopped procs path ->
  forall todo done pid seen fuel,
    path = (todo ++ done)%list ->
    (exists y, last todo = Some y /\ PID y = pid) ->
    (forall x, x ∈ seen <-> x ∈ (PID <$> done)) ->
    (length todo < fuel)%nat ->
    exists seen', walk procs fuel pid seen done = Some (path, seen').
Proof.
  intros Hread Hlink Hpos Hnd Hstop todo.
  induction todo as [|y todo IH] using rev_ind;
    intros done pid seen fuel Hpath (y0 & Hlast & Hpid) Hseen Hfuel;
    [discriminate|].
  rewrite last_snoc in Hlast. injection Hlast as <-.
  rewrite <- app_assoc in Hpath. cbn [app] in Hpath.
  assert (y ∈ path) as Hy.
  { rewrite Hpath. apply elem_of_app. right. apply list_elem_of_here. }
  assert (Read procs pid = Some y) as Hrd.
  { rewrite <- Hpid. unfold all_read in Hread.
    rewrite Forall_forall in Hread. apply Hread. assumption. }
  assert (0 < pid) as Hpidpos.
  { rewrite <- Hpid. rewrite Forall_forall in Hpos. apply Hpos. assumption. }
  assert (pid ∉ seen) as Hfresh.
  { rewrite Hseen, <- Hpid. rewrite Hpath, fmap_app, fmap_cons in Hnd.
    apply NoDup_app in Hnd as (_ & _ & Hnd).
    apply NoDup_cons in Hnd as [Hnd _]. exact Hnd. }
  assert (forall x, x ∈ ({[pid]} ∪ seen : gset Z) <->
                    x ∈ (PID <$> y :: done)) as Hseen'.
  { intros x. rewrite fmap_cons, elem_of_cons, elem_of_union,
      elem_of_singleton, Hseen, Hpid. reflexivity. }
  destruct fuel as [|fuel]; [lia|].
  rewrite walk_enter, Hrd by assumption.
  destruct todo as [|z todo _] using rev_ind.
  - (* [y] is the first element of the path *)
    cbn [app] in Hpath. subst path.
    destruct (bool_decide (PID y = 1)) eqn:H1; cbn [orb]; [eauto|].
    destruct (bool_decide (PPID y = 0)) eqn:H0; [eauto|].
    apply bool_decide_eq_false in H1, H0.
    rewrite length_app in Hfuel. cbn [length] in Hfuel.
    destruct fuel as [|fuel]; [lia|].
    destruct (Hstop y eq_refl) as [Hs | [Hs | [Hs | [Hs | Hs]]]];
      try contradiction.
    + rewrite walk_exit by (left; lia). eauto.
    + rewrite walk_exit by (right; apply Hseen'; exact Hs). eauto.
    + destruct (decide (0 < PPID y /\ PPID y ∉ ({[pid]} ∪ seen : gset Z)))
        as [[Hp Hns] | Hno].
      * rewrite walk_enter by assumption.
        rewrite (proj2 (Read_None (PPID y)) Hs). eauto.
      * rewrite walk_exit; [eauto|].
        destruct (decide (0 < PPID y)); [right | left; lia].
        apply dec_stable. intros Hns. apply Hno. split; assumption.
  - (* [z] stands right in front of [y] *)
    rewrite <- app_assoc in Hpath. cbn [app] in Hpath.
    assert (linked (todo ++ z :: y :: done)) as Hadj by (rewrite <- Hpath;
                                                         assumption).
    apply linked_adjacent in Hadj as (Hpp & H1 & H0).
    rewrite (bool_decide_eq_false_2 _ H1), (bool_decide_eq_false_2 _ H0).
    cbn [orb].
    apply (IH (y :: done) (PPID y) ({[pid]} ∪ seen) fuel).
    + rewrite Hpath, <- app_assoc. reflexivity.
    + exists z. split; [apply last_snoc | symmetry; assumption].
    + exact Hseen'.
    + rewrite !length_app in Hfuel. rewrite length_app. cbn [length] in *.
      lia.
Qed.

(** A list with the properties of [is_ancestry] is what the loop returns. *)
Lemma walk_is_ancestry (target : Z) (path : list Process) (fuel : nat) :
  is_ancestry procs target path -> (length path < fuel)%nat ->
  exists seen, walk procs fuel target ∅ [] = Some (path, seen).
Proof.
  intros ((t & Hlast & Ht) & Hread & Hlink & Hpos & Hnd & Hstop) Hfuel.
  apply (walk_along path Hread Hlink Hpos Hnd Hstop path [] target ∅ fuel).
  - rewrite app_nil_r. reflexivity.
  - eauto.
  - intros x. rewrite fmap_nil, elem_of_nil.
    split; [apply not_elem_of_empty | tauto].
  - assumption.
Qed.

End Walk.

Lemma dom_identifiers (procs : gmap Z Stat) : dom procs ⊆ identifiers procs.
Proof. unfold identifiers. apply union_subseteq_l. Qed.

Lemma parent_identifiers (procs : gmap Z Stat) q st :
  procs !! q = Some st -> 0 < st_ppid st -> st_ppid st ∈ identifiers procs.
Proof.
  intros Hq Hpos. unfold identifiers.
  apply elem_of_union_r, elem_of_filter. split; [assumption|].
  apply elem_of_map_to_set. exists q, st. split; [assumption | reflexivity].
Qed.

End process_facts.

(** * The claims about the ancestry builder *)

Section AncestryClaims.

Import process process_facts.

Variable procs : gmap Z Stat.

(** A walk that starts inside a cycle of two processes reads both and
    stops when it is back at the first. *)
Lemma walk_two_cycle (a b : Z) (sa sb : Stat) :
  procs !! a = Some sa -> st_ppid sa = b ->
  procs !! b = Some sb -> st_ppid sb = a ->
  exists chain seen,
    walk procs 3 a ∅ [] = Some (chain, seen) /\ (length chain <= 2)%nat.
Proof.
  intros Ha Hab Hb Hba.
  destruct (Read_is_Some procs a (mk_is_Some _ _ Ha)) as (pa & Hra & Hpa).
  destruct (Read_is_Some procs b (mk_is_Some _ _ Hb)) as (pb & Hrb & Hpb).
  assert (PPID pa = b) as Hppa.
  { unfold Read in Hra. rewrite Ha in Hra. injection Hra as <-. exact Hab. }
  assert (PPID pb = a) as Hppb.
  { unfold Read in Hrb. rewrite Hb in Hrb. injection Hrb as <-. exact Hba. }
  destruct (decide (0 < a)) as [Hpos|Hneg].
  2:{ exists [], ∅. rewrite walk_exit by lia. simpl. split; [reflexivity | lia]. }
  rewrite walk_enter, Hra by (assumption || apply not_elem_of_empty).
  destruct (bool_decide (PID pa = 1) || bool_decide (PPID pa = 0)).
  { eexists _, _. split; [reflexivity | simpl; lia]. }
  rewrite Hppa.
  destruct (decide (b <= 0 \/ b ∈ ({[a]} ∪ ∅ : gset Z))) as [Hex|Hgo].
  { rewrite walk_exit by assumption.
    eexists _, _. split; [reflexivity | simpl; lia]. }
  rewrite walk_enter, Hrb by tauto || lia.
  destruct (bool_decide (PID pb = 1) || bool_decide (PPID pb = 0)).
  { eexists _, _. split; [reflexivity | simpl; lia]. }
  rewrite Hppb, walk_exit.
  - eexists _, _. split; [reflexivity | simpl; lia].
  - right. rewrite !elem_of_union, !elem_of_singleton. tauto.
Qed.

(** C2: whatever the parent pointers are, cyclic ones included, the loop of
    [BuildAncestry] ends. With [N] the number of identifiers of the graph,
    [N + 1] evaluations of the loop condition are enough; the chain has at
    most [N] elements; the body runs at most [N] times when the requested
    identifier belongs to the graph (once more at worst when it does not).
    For two processes that are each other's parent the result has at most
    two elements. *)
Theorem BuildAncestry_terminates (target : Z) :
  let N := size (identifiers procs) in
  (forall fuel, (N < fuel)%nat ->
     exists chain k,
       BuildAncestry procs fuel target = Some (chain, None) /\
       steps procs fuel target = Some k /\
       (length chain <= N)%nat /\ (k <= S N)%nat /\
       (target ∈ identifiers procs -> (k <= N)%nat)) /\
  (forall b sa sb fuel,
     procs !! target = Some sa -> st_ppid sa = b ->
     procs !! b = Some sb -> st_ppid sb = target -> (3 <= fuel)%nat ->
     exists chain,
       BuildAncestry procs fuel target = Some (chain, None) /\
       (length chain <= 2)%nat).
Proof.
  intros N. split.
  - intros fuel Hfuel.
    pose proof (subseteq_size _ _ (dom_identifiers procs)) as Hdom.
    destruct (walk_start procs fuel target) as (chain & seen & Hw);
      [fold N in Hdom; lia|].
    pose proof (walk_start_chain _ _ _ _ _ Hw) as (_ & _ & Hr & Hnd & _).
    exists chain, (size seen). unfold BuildAncestry, steps. rewrite Hw.
    repeat split.
    + pose proof (chain_in_dom _ _ Hr Hnd). fold N in Hdom. lia.
    + assert (seen ⊆ {[target]} ∪ identifiers procs) as Hsub.
      { eapply walk_seen; [exact Hw | | | apply empty_subseteq].
        - intros _. apply elem_of_union_l, elem_of_singleton. reflexivity.
        - intros q st Hq Hpos. apply elem_of_union_r.
          eapply parent_identifiers; eauto. }
      apply subseteq_size in Hsub.
      pose proof (size_union_alt (C := gset Z) {[target]} (identifiers procs)).
      pose proof (subseteq_size (identifiers procs ∖ {[target]})
                    (identifiers procs)) as Hd.
      rewrite size_singleton in *. fold N in Hd.
      assert (identifiers procs ∖ {[target]} ⊆ identifiers procs)
        by apply subseteq_difference_l, reflexivity.
      specialize (Hd ltac:(assumption)). lia.
    + intros Hin.
      assert (seen ⊆ identifiers procs) as Hsub.
      { eapply walk_seen; [exact Hw | | | apply empty_subseteq].
        - intros _. assumption.
        - apply parent_identifiers. }
      apply subseteq_size in Hsub. exact Hsub.
  - intros b sa sb fuel Ha Hab Hb Hba Hfuel.
    destruct (walk_two_cycle target b sa sb Ha Hab Hb Hba)
      as (chain & seen & Hw & Hlen).
    exists chain. split; [|assumption].
    unfold BuildAncestry.
    rewrite (walk_fuel_mono procs 3 fuel _ _ _ _ Hw Hfuel). reflexivity.
Qed.

(** C3, as the code has it: for a positive identifier that can be read, the
    chain ends with the process read for it, no identifier occurs twice, and
    the first element is init, or has parent 0, or has a parent that is
    negative, was already visited, or can not be read. *)
Theorem BuildAncestry_shape (target : Z) (fuel : nat) :
  0 < target -> is_Some (procs !! target) ->
  (size (dom procs) < fuel)%nat ->
  exists chain,
    BuildAncestry procs fuel target = Some (chain, None) /\
    (exists t, last chain = Some t /\ PID t = target) /\
    NoDup (PID <$> chain) /\
    (exists h, head chain = Some h /\
       (PID h = 1 \/ PPID h = 0 \/ PPID h < 0 \/
        PPID h ∈ (PID <$> chain) \/ procs !! PPID h = None)).
Proof.
  intros Hpos Hsome Hfuel.
  destruct (walk_start procs fuel target Hfuel) as (chain & seen & Hw).
  pose proof (walk_start_chain _ _ _ _ _ Hw) as (_ & Hstop & _ & Hnd & _).
  destruct (walk_target _ _ _ _ _ _ _ Hw Hpos (not_elem_of_empty _) Hsome)
    as (pre & t & Hch & Ht).
  exists chain. unfold BuildAncestry. rewrite Hw.
  split; [reflexivity|]. split; [|split; [assumption|]].
  - exists t. split; [|assumption].
    rewrite Hch. apply last_snoc.
  - destruct chain as [|h chain].
    + destruct pre; discriminate.
    + exists h. split; [reflexivity|]. apply Hstop. reflexivity.
Qed.

(** C4: an identifier that can not be read gives the empty chain, which
    [main] reports as an error; a readable one gives a chain that [main]
    accepts, made of processes that were read, each the parent of the next,
    and cut where a parent could not be read: the chain goes up until the
    loop has a reason to stop, a failed read among them, and it is the only
    list that does. *)
Theorem BuildAncestry_failure_modes (target : Z) :
  (procs !! target = None ->
   forall fuel, (0 < fuel)%nat ->
     BuildAncestry procs fuel target = Some ([], None) /\
     main_ancestry ([], None) = ExitError 1) /\
  (0 < target -> is_Some (procs !! target) ->
   forall fuel, (size (dom procs) < fuel)%nat ->
     exists chain t,
       BuildAncestry procs fuel target = Some (chain, None) /\
       chain <> [] /\
       main_ancestry (chain, None) = Continue chain (Some t) /\
       PID t = target /\
       all_read procs chain /\ linked chain /\
       (forall p, p ∈ chain -> procs !! PPID p = None ->
                  head chain = Some p) /\
       is_ancestry procs target chain /\
       (forall path, is_ancestry procs target path -> path = chain)).
Proof.
  split.
  - intros Hnone fuel Hfuel. split; [|reflexivity].
    destruct fuel as [|fuel]; [lia|].
    unfold BuildAncestry.
    destruct (decide (0 < target)) as [Hpos|Hneg].
    + rewrite walk_enter by (assumption || apply not_elem_of_empty).
      rewrite (proj2 (Read_None procs target) Hnone). reflexivity.
    + rewrite walk_exit by lia. reflexivity.
  - intros Hpos Hsome fuel Hfuel.
    destruct (walk_start procs fuel target Hfuel) as (chain & seen & Hw).
    pose proof (walk_start_chain _ _ _ _ _ Hw) as (Hl & Hst & Hr & Hnd & _).
    pose proof (walk_positive _ _ _ _ _ _ _ Hw (List.Forall_nil _)) as Hps.
    destruct (walk_target _ _ _ _ _ _ _ Hw Hpos (not_elem_of_empty _) Hsome)
      as (pre & t & Hch & Ht).
    assert (last chain = Some t) as Hlast by (rewrite Hch; apply last_snoc).
    assert (chain <> []) as Hne by (intros ->; discriminate).
    exists chain, t. unfold BuildAncestry. rewrite Hw.
    split; [reflexivity|]. split; [assumption|].
    split; [|split; [assumption|]].
    { unfold main_ancestry. simpl.
      rewrite bool_decide_eq_false_2, Hlast; [reflexivity|].
      destruct chain; [contradiction | discriminate]. }
    split; [assumption|]. split; [assumption|].
    split; [|split].
    + intros p Hin Hnone.
      destruct (linked_parent_read procs chain p Hl Hr Hin) as [Hh | [st Hst']];
        [assumption | congruence].
    + repeat split; try assumption. eauto.
    + intros path Hpath.
      destruct (walk_is_ancestry procs target path
                  (S (length path) + fuel) Hpath ltac:(lia)) as [seen' Hw'].
      rewrite (walk_fuel_mono procs fuel (S (length path) + fuel)
                 _ _ _ _ Hw ltac:(lia)) in Hw'.
      congruence.
Qed.

End AncestryClaims.

Lemma BuildAncestry_terminates_witness :
  (exists chain k,
     process.BuildAncestry fixtures.two_cycle 3 10 = Some (chain, None) /\
     process.steps fixtures.two_cycle 3 10 = Some k /\
     (length chain <= 2)%nat /\ (k <= 2)%nat) /\
  (exists chain,
     process.BuildAncestry fixtures.two_cycle 3 10 = Some (chain, None) /\
     (length chain <= 2)%nat).
Proof.
  pose proof (BuildAncestry_terminates fixtures.two_cycle 10) as [H1 H2].
  split.
  - destruct (H1 3%nat) as (chain & k & Hb & Hs & Hlen & _ & Hk).
    + vm_compute. lia.
    + exists chain, k. repeat split; try assumption.
      apply Hk. apply (bool_decide_unpack _). vm_compute. exact I.
  - apply (H2 20 (fixtures.mkStat 20 "a" "a") (fixtures.mkStat 10 "b" "b"));
      reflexivity.
Defined.

(** C3 as stated fails: the only process of [orphan] names a parent that
    can not be read, and the chain starts with that process. *)
Lemma BuildAncestry_not_always_rooted :
  0 < 5 /\ is_Some (fixtures.orphan !! 5) /\
  process.BuildAncestry fixtures.orphan 2 5
    = Some ([fixtures.orphan_5], None) /\
  ~ process.rooted [fixtures.orphan_5].
Proof.
  split; [lia|]. split; [exists (fixtures.mkStat 7 "job" "job --run"); reflexivity|].
  split; [vm_compute; reflexivity|].
  intros (h & [= <-] & [H | H]); discriminate H.
Qed.

Lemma BuildAncestry_shape_witness :
  exists chain,
    process.BuildAncestry fixtures.orphan 2 5 = Some (chain, None) /\
    (exists t, last chain = Some t /\ process.PID t = 5) /\
    NoDup (process.PID <$> chain) /\
    (exists h, head chain = Some h /\
       (process.PID h = 1 \/ process.PPID h = 0 \/ process.PPID h < 0 \/
        process.PPID h ∈ (process.PID <$> chain) \/
        fixtures.orphan !! process.PPID h = None)).
Proof.
  apply (BuildAncestry_shape fixtures.orphan 5 2).
  - lia.
  - exists (fixtures.mkStat 7 "job" "job --run"). reflexivity.
  - vm_compute. lia.
Defined.

Lemma BuildAncestry_failure_modes_witness :
  (process.BuildAncestry fixtures.orphan 1 7 = Some ([], None) /\
   process.main_ancestry ([], None) = process.ExitError 1) /\
  process.BuildAncestry fixtures.cut_tree 3 41
  = Some ([fixtures.mkProcess 40 7 "sshd" "sshd -D" "app" [] "/srv";
           fixtures.mkProcess 41 40 "job" "job --run" "app" [] "/srv"],
          None).
Proof.
  split.
  - apply (proj1 (BuildAncestry_failure_modes fixtures.orphan 7)).
    + reflexivity.
    + lia.
  - destruct (proj2 (BuildAncestry_failure_modes fixtures.cut_tree 41))
      with (fuel := 3%nat)
      as (chain & t & Hbuild & _ & _ & _ & _ & _ & _ & _ & Honly).
    + lia.
    + exists (fixtures.mkStat 40 "job" "job --run"). reflexivity.
    + vm_compute. lia.
    + rewrite Hbuild. f_equal. f_equal. symmetry. apply Honly.
      split; [eexists; split; reflexivity|].
      split; [repeat constructor|].
      split; [simpl; repeat split; discriminate|].
      split; [repeat constructor|].
      split.
      * simpl. apply NoDup_cons. split; [|apply NoDup_singleton].
        rewrite list_elem_of_singleton. discriminate.
      * intros h [= <-]. do 4 right. reflexivity.
Defined.

(** * Properties of the source detector *)

Module detect_facts.

Import Strings detect.

(** *** Facts that do not depend on the environment *)

Lemma rangeSupervisors_None entries cmdline :
  rangeSupervisors entries cmdline = None <->
  forall sup name, (sup, name) ∈ entries -> Contains cmdline sup = false.
Proof.
  induction entries as [|[sup name] rest IH]; simpl.
  - split; [|reflexivity]. intros _ sup name Hin.
    apply elem_of_nil in Hin. contradiction.
  - destruct (Contains cmdline sup) eqn:Hc.
    + split; [discriminate|]. intros Hall.
      rewrite (Hall sup name) in Hc by apply list_elem_of_here. discriminate.
    + rewrite IH. split.
      * intros Hall sup' name' [[= -> ->] | Hin]%elem_of_cons; eauto.
      * intros Hall sup' name' Hin. eapply Hall.
        apply list_elem_of_further. eassumption.
Qed.

Lemma rangeSupervisors_Some entries cmdline name :
  rangeSupervisors entries cmdline = Some name ->
  exists sup, (sup, name) ∈ entries /\ Contains cmdline sup = true.
Proof.
  induction entries as [|[sup name'] rest IH]; simpl; [discriminate|].
  destruct (Contains cmdline sup) eqn:Hc.
  - intros [= ->]. exists sup. split; [apply list_elem_of_here | assumption].
  - intros (sup' & Hin & Hc')%IH. exists sup'.
    split; [apply list_elem_of_further|]; assumption.
Qed.

Lemma HasPrefix_ToLowerASCII s t :
  HasPrefix s t = true ->
  HasPrefix (ToLowerASCII s) (ToLowerASCII t) = true.
Proof.
  revert s. induction t as [|c t IH]; intros s;
    [intros _; destruct s; reflexivity|].
  destruct s as [|d s]; simpl; [discriminate|].
  intros [Hcd Hst]%andb_prop. apply bool_decide_eq_true in Hcd as ->.
  rewrite bool_decide_eq_true_2 by reflexivity. simpl. apply IH. assumption.
Qed.

Lemma Contains_ToLowerASCII s t :
  Contains s t = true ->
  Contains (ToLowerASCII s) (ToLowerASCII t) = true.
Proof.
  induction s as [|c s IH]; simpl.
  - rewrite !orb_false_r. apply (HasPrefix_ToLowerASCII "" t).
  - intros [Hp | Hc]%orb_prop.
    + apply (HasPrefix_ToLowerASCII (String c s) t) in Hp. simpl in Hp.
      rewrite Hp. reflexivity.
    + rewrite (IH Hc). apply orb_true_r.
Qed.

(** On an ASCII string [strings.ToLower] is the byte loop, whatever the
    Unicode mapping does. *)
Lemma ToLower_ASCII (MapLower : string -> string) (s : string) :
  isASCII s = true -> ToLower MapLower s = ToLowerASCII s.
Proof. intros Hs. unfold ToLower. rewrite Hs. reflexivity. Qed.

(** The keys of the registry are ASCII and lower-case. *)
Lemma supervisors_keys sup name :
  supervisors !! sup = Some name ->
  isASCII sup = true /\ ToLowerASCII sup = sup.
Proof.
  intros Hl.
  assert (forallb (fun kv => isASCII (fst kv)
                             && bool_decide (ToLowerASCII (fst kv) = fst kv))
            (map_to_list supervisors) = true) as Hall
    by (vm_compute; reflexivity).
  rewrite forallb_forall in Hall.
  apply elem_of_map_to_list, list_elem_of_In in Hl.
  apply Hall, andb_prop in Hl as [Ha Hk].
  apply bool_decide_eq_true in Hk. split; assumption.
Qed.

Lemma supervisors_lower (MapLower : string -> string) sup name :
  supervisors !! sup = Some name -> ToLower MapLower sup = sup.
Proof.
  intros Hl. apply supervisors_keys in Hl as [Ha Hk].
  rewrite ToLower_ASCII by assumption. exact Hk.
Qed.

Lemma isPublicBind_true addrs :
  isPublicBind addrs = true <->
  exists a, a ∈ addrs /\ (a = "0.0.0.0" \/ a = "::").
Proof.
  induction addrs as [|a rest IH]; simpl.
  - split; [discriminate|]. intros (a & Hin & _).
    apply elem_of_nil in Hin. contradiction.
  - destruct (bool_decide (a = "0.0.0.0")) eqn:H4; simpl.
    { apply bool_decide_eq_true in H4. split; [|reflexivity].
      intros _. exists a. split; [apply list_elem_of_here | auto]. }
    destruct (bool_decide (a = "::")) eqn:H6; simpl.
    { apply bool_decide_eq_true in H6. split; [|reflexivity].
      intros _. exists a. split; [apply list_elem_of_here | auto]. }
    apply bool_decide_eq_false in H4, H6.
    rewrite IH. split.
    + intros (b & Hin & Hb). exists b.
      split; [apply list_elem_of_further|]; assumption.
    + intros (b & [-> | Hin]%elem_of_cons & Hb); [tauto | eauto].
Qed.

Lemma public_warning_not_health health :
  public_warning ∉ health_warning health.
Proof.
  unfold health_warning.
  repeat case_bool_decide;
    first [apply not_elem_of_nil
          | intros Hin; apply list_elem_of_singleton in Hin; discriminate Hin].
Qed.

Lemma elem_of_rule (b : bool) (w x : string) :
  x ∈ rule b w <-> b = true /\ x = w.
Proof.
  destruct b; simpl.
  - rewrite list_elem_of_singleton.
    split; [intros ->; split; reflexivity | intros [_ ->]; reflexivity].
  - split; [|intros [[=] _]].
    intros Hin. apply elem_of_nil in Hin. contradiction.
Qed.

Section Detector.

Context {P : Type} `{Process P}.
Variable MapLower : string -> string.
Variable ReadFile : string -> option string.
Variable launchctl_blame : Z -> option string.
Variable now : Z.
Variable goos : GOOS.
Variable order : RangeOrder.

Lemma detectContainer_Some ancestry src :
  detectContainer ReadFile ancestry = Some src -> src = container.
Proof.
  induction ancestry as [|p rest IH]; simpl; [discriminate|].
  destruct (ReadFile _) as [s|]; [|assumption].
  destruct (has_container_marker s); [|assumption].
  congruence.
Qed.

Lemma detectContainer_evidence ancestry :
  container_evidence ReadFile ancestry <->
  detectContainer ReadFile ancestry = Some container.
Proof.
  unfold container_evidence. induction ancestry as [|p rest IH]; simpl.
  - split; [|discriminate].
    intros (p & s & Hin & _). apply elem_of_nil in Hin. contradiction.
  - split.
    + intros (q & s & Hin & Hrd & Hm).
      apply elem_of_cons in Hin as [-> | Hin].
      * rewrite Hrd, Hm. reflexivity.
      * assert (detect.detectContainer ReadFile rest = Some container)
          as Hrest by (apply IH; eauto).
        destruct (ReadFile ("/proc/" ++ itoa (GetPID p) ++ "/cgroup"))
          as [s'|]; [destruct (has_container_marker s')|];
          try reflexivity; assumption.
    + destruct (ReadFile _) as [s|] eqn:Hrd.
      * destruct (has_container_marker s) eqn:Hm.
        -- intros _. exists p, s. split; [apply list_elem_of_here | auto].
        -- intros (q & s' & Hin & Hq)%IH. exists q, s'.
           split; [apply list_elem_of_further; assumption | assumption].
      * intros (q & s' & Hin & Hq)%IH. exists q, s'.
        split; [apply list_elem_of_further; assumption | assumption].
Qed.

(** *** The supervisor scan *)

Lemma valid_order_lookup i sup name :
  valid_order order ->
  (sup, name) ∈ order i <-> supervisors !! sup = Some name.
Proof.
  intros Hv. rewrite (Hv i). apply elem_of_map_to_list.
Qed.

(** The range over the registry finds nothing exactly when no key occurs
    in the command line, and what it finds is the name of such a key. *)
Lemma range_no_match i (p : P) :
  valid_order order ->
  rangeSupervisors (order i) (ToLower MapLower (GetCmdline p)) = None <->
  ~ cmdline_match MapLower p.
Proof.
  intros Hv. rewrite rangeSupervisors_None. unfold cmdline_match. split.
  - intros Hall (sup & name & Hl & Hc).
    rewrite (Hall sup name) in Hc by (apply valid_order_lookup; assumption).
    discriminate.
  - intros Hno sup name Hin%valid_order_lookup; [|assumption].
    destruct (Contains _ sup) eqn:Hc; [|reflexivity].
    exfalso. apply Hno. eauto.
Qed.

Lemma range_match i (p : P) :
  valid_order order -> cmdline_match MapLower p ->
  exists sup name,
    supervisors !! sup = Some name /\
    Contains (ToLower MapLower (GetCmdline p)) sup = true /\
    rangeSupervisors (order i) (ToLower MapLower (GetCmdline p)) = Some name.
Proof.
  intros Hv Hm.
  destruct (rangeSupervisors (order i) (ToLower MapLower (GetCmdline p)))
    as [name|] eqn:Hr.
  - destruct (rangeSupervisors_Some _ _ _ Hr) as (sup & Hin & Hc).
    exists sup, name. rewrite <- (valid_order_lookup i) by assumption. auto.
  - apply range_no_match in Hr; [contradiction | assumption].
Qed.

(** One iteration of the loop of [detectSupervisor]. *)
Lemma detectSupervisor_loop_S ancestry i (p : P) :
  ancestry !! i = Some p ->
  detectSupervisor_loop MapLower order ancestry (S i) =
  if pm2_match MapLower p then Some (supervisor "pm2" 0.9)
  else match registry_match MapLower p with
       | Some name => Some (supervisor name 0.7)
       | None =>
           match rangeSupervisors (order i) (ToLower MapLower (GetCmdline p)) with
           | Some name => Some (supervisor name 0.7)
           | None => detectSupervisor_loop MapLower order ancestry i
           end
       end.
Proof.
  intros Hp. cbn [detectSupervisor_loop]. rewrite Hp. reflexivity.
Qed.

Lemma detectSupervisor_loop_skip ancestry (p : P) i :
  valid_order order -> ancestry !! i = Some p -> no_supervisor_match MapLower p ->
  detectSupervisor_loop MapLower order ancestry (S i) =
  detectSupervisor_loop MapLower order ancestry i.
Proof.
  intros Hv Hp (Hpm & Hreg & Hcmd).
  rewrite (detectSupervisor_loop_S _ _ _ Hp), Hpm, Hreg.
  apply (range_no_match i) in Hcmd; [|assumption]. rewrite Hcmd. reflexivity.
Qed.

(** Processes behind the first [n] play no part in the first [n]
    iterations counted from the root. *)
Lemma detectSupervisor_loop_app (front back : list P) n :
  (n <= length front)%nat ->
  detectSupervisor_loop MapLower order (front ++ back) n =
  detectSupervisor_loop MapLower order front n.
Proof.
  induction n as [|i IH]; intros Hn; [reflexivity|].
  cbn [detectSupervisor_loop]. rewrite lookup_app_l by lia.
  destruct (front !! i) as [p|]; [|reflexivity].
  rewrite IH by lia. reflexivity.
Qed.

(** The scan passes over a tail of processes that match nothing. *)
Lemma detectSupervisor_skip_back (front back : list P) :
  valid_order order -> Forall (no_supervisor_match MapLower) back ->
  detectSupervisor MapLower order (front ++ back) = detectSupervisor MapLower order front.
Proof.
  intros Hv Hback. unfold detect.detectSupervisor.
  induction back as [|q back IH] using rev_ind.
  - rewrite app_nil_r. reflexivity.
  - apply Forall_app in Hback as [Hback Hq].
    apply Forall_inv in Hq.
    rewrite app_assoc.
    rewrite (length_app (front ++ back)%list [q]). cbn [length].
    rewrite Nat.add_1_r.
    rewrite (detectSupervisor_loop_skip _ q); try assumption.
    + rewrite detectSupervisor_loop_app by lia. apply IH. assumption.
    + rewrite lookup_app_r by lia. rewrite Nat.sub_diag. reflexivity.
Qed.

(** *** The warning rules *)

(** [Warnings] is the concatenation of what its six rules contribute. *)
Lemma Warnings_rules (ancestry : list P) :
  Warnings MapLower ReadFile launchctl_blame now goos order ancestry =
  match last ancestry with
  | None => []
  | Some t =>
      (health_warning (GetHealth t)
       ++ rule (isPublicBind (GetBindAddresses t)) public_warning
       ++ rule (bool_decide (GetUser t = "root")) root_warning
       ++ rule (suspicious_dir (GetWorkingDir t))
            (dir_warning (GetWorkingDir t))
       ++ rule (long_running now (GetStartedAt t)) age_warning
       ++ rule (bool_decide
                  (Type_ (Detect MapLower ReadFile launchctl_blame goos order ancestry)
                   = SourceUnknown)) unknown_warning)%list
  end.
Proof.
  unfold Warnings. destruct (last ancestry) as [t|]; [|reflexivity].
  fold (suspicious_dir (GetWorkingDir t)).
  fold (long_running now (GetStartedAt t)).
  destruct (isPublicBind _), (bool_decide (GetUser t = "root")),
    (suspicious_dir _), (long_running _ _), (bool_decide (Type_ _ = _));
    simpl; rewrite <- ?app_assoc, ?app_nil_r; reflexivity.
Qed.

End Detector.

End detect_facts.

(** * The claims about the source detector *)

Section DetectorClaims.

Import Strings detect detect_facts.

Context {P : Type} `{Process P}.
Variable MapLower : string -> string.
Variable ReadFile : string -> option string.
Variable launchctl_blame : Z -> option string.
Variable now : Z.
Variable goos : GOOS.
Variable order : RangeOrder.

#[local] Abbreviation Detect :=
  (Detect MapLower ReadFile launchctl_blame goos order).
#[local] Abbreviation detectContainer := (detectContainer ReadFile).
#[local] Abbreviation detectSupervisor :=
  (detectSupervisor MapLower order).
#[local] Abbreviation detectInit := (detectInit launchctl_blame goos).
#[local] Abbreviation Warnings :=
  (Warnings MapLower ReadFile launchctl_blame now goos order).

(** C1: [Detect] returns the verdict of the first classifier that has one,
    in the order container, supervisor, cron, shell, init, and Unknown with
    confidence 0.2 when none has; container evidence anywhere in the ancestry
    gives the container verdict with confidence 0.9, whatever the supervisor
    classifier would say. *)
Theorem Detect_priority (ancestry : list P) :
  (forall src, detectContainer ancestry = Some src -> Detect ancestry = src) /\
  (detectContainer ancestry = None ->
   (forall src, detectSupervisor ancestry = Some src ->
                Detect ancestry = src) /\
   (detectSupervisor ancestry = None ->
    (forall src, detectCron ancestry = Some src -> Detect ancestry = src) /\
    (detectCron ancestry = None ->
     (forall src, detectShell ancestry = Some src -> Detect ancestry = src) /\
     (detectShell ancestry = None ->
      (forall src, detectInit ancestry = Some src -> Detect ancestry = src) /\
      (detectInit ancestry = None ->
       Detect ancestry = unknown /\
       Type_ (Detect ancestry) = SourceUnknown /\
       Confidence (Detect ancestry) = 0.2%Q))))) /\
  (container_evidence ReadFile ancestry ->
   forall sup, detectSupervisor ancestry = sup ->
     Detect ancestry = container /\
     Type_ (Detect ancestry) = SourceContainer /\
     Confidence (Detect ancestry) = 0.9%Q).
Proof.
  unfold detect.Detect. split; [|split].
  - intros src ->. reflexivity.
  - intros ->. split; [intros src ->; reflexivity|].
    intros ->. split; [intros src ->; reflexivity|].
    intros ->. split; [intros src ->; reflexivity|].
    intros ->. split; [intros src ->; reflexivity|].
    intros ->. repeat split.
  - intros Hev%detectContainer_evidence sup _. rewrite Hev. repeat split.
Qed.

(** C10: on the empty ancestry [Warnings] is the empty list and [Detect] is
    Unknown with confidence 0.2. *)
Theorem empty_ancestry :
  Warnings [] = [] /\
  Detect [] = unknown /\
  Type_ (Detect []) = SourceUnknown /\
  Confidence (Detect []) = 0.2%Q.
Proof.
  assert (Detect [] = unknown) as Hd.
  { unfold detect.Detect. destruct goos; reflexivity. }
  rewrite Hd. repeat split.
Qed.

(** C6: [detectSupervisor] looks at the processes from the target towards
    the root and stops at the first one that matches. For that process [p],
    with nothing matching behind it: a pm2 substring in the command or the
    command line gives pm2 with confidence 0.9; otherwise a command that is
    a key of the registry gives the registered name with confidence 0.7;
    otherwise a key of the registry inside the command line gives the name
    of such a key with confidence 0.7; otherwise the scan goes on with the
    processes in front of [p]. The tests are made on what [strings.ToLower]
    returns, for any Unicode mapping; a registry key as command is a match
    as it is, and so is a match on an ASCII command or command line. *)
Theorem detectSupervisor_nearest (front back : list P) (p : P) :
  valid_order order ->
  Forall (no_supervisor_match MapLower) back ->
  (pm2_match MapLower p = true ->
   detectSupervisor (front ++ p :: back) = Some (supervisor "pm2" 0.9)) /\
  (pm2_match MapLower p = false ->
   forall name, registry_match MapLower p = Some name ->
     detectSupervisor (front ++ p :: back) = Some (supervisor name 0.7)) /\
  (pm2_match MapLower p = false -> registry_match MapLower p = None ->
   cmdline_match MapLower p ->
   exists sup name,
     supervisors !! sup = Some name /\
     Contains (ToLower MapLower (GetCmdline p)) sup = true /\
     detectSupervisor (front ++ p :: back) = Some (supervisor name 0.7)) /\
  (no_supervisor_match MapLower p ->
   detectSupervisor (front ++ p :: back) = detectSupervisor front) /\
  (isASCII (GetCommand p) = true /\ Contains (GetCommand p) "pm2" = true \/
   isASCII (GetCmdline p) = true /\ Contains (GetCmdline p) "pm2" = true ->
   pm2_match MapLower p = true) /\
  (forall name, supervisors !! GetCommand p = Some name ->
                registry_match MapLower p = Some name) /\
  (isASCII (GetCmdline p) = true ->
   (exists sup name, supervisors !! sup = Some name /\
                     Contains (GetCmdline p) sup = true) ->
   cmdline_match MapLower p).
Proof.
  intros Hv Hback.
  assert (detectSupervisor (front ++ p :: back) =
          if pm2_match MapLower p then Some (supervisor "pm2" 0.9)
          else match registry_match MapLower p with
               | Some name => Some (supervisor name 0.7)
               | None =>
                   match rangeSupervisors (order (length front))
                           (ToLower MapLower (GetCmdline p)) with
                   | Some name => Some (supervisor name 0.7)
                   | None => detectSupervisor front
                   end
               end) as Hstep.
  { rewrite (cons_middle p front back), app_assoc.
    rewrite detectSupervisor_skip_back by assumption.
    unfold detect.detectSupervisor.
    rewrite length_app. cbn [length]. rewrite Nat.add_1_r.
    rewrite (detectSupervisor_loop_S MapLower order _ _ p).
    - rewrite detectSupervisor_loop_app by lia. reflexivity.
    - rewrite lookup_app_r by lia. rewrite Nat.sub_diag. reflexivity. }
  rewrite Hstep. repeat split.
  - intros ->. reflexivity.
  - intros -> name ->. reflexivity.
  - intros -> -> Hm.
    destruct (range_match MapLower order (length front) p Hv Hm)
      as (sup & name & Hl & Hc & Hr).
    exists sup, name. rewrite Hr. auto.
  - intros (-> & -> & Hno).
    apply (range_no_match MapLower order (length front) p Hv) in Hno.
    rewrite Hno. reflexivity.
  - unfold pm2_match.
    intros [[Ha Hc] | [Ha Hc]]; apply Contains_ToLowerASCII in Hc;
      change (ToLowerASCII "pm2") with "pm2" in Hc;
      rewrite (ToLower_ASCII MapLower _ Ha), Hc;
      [reflexivity | apply orb_true_r].
  - intros name Hl. unfold registry_match.
    rewrite (supervisors_lower MapLower _ _ Hl). assumption.
  - intros Ha (sup & name & Hl & Hc). exists sup, name.
    split; [assumption|].
    apply Contains_ToLowerASCII in Hc.
    rewrite (proj2 (supervisors_keys _ _ Hl)) in Hc.
    rewrite (ToLower_ASCII MapLower _ Ha). assumption.
Qed.

(** C7, as the code has it: for a healthy target owned by root, bound to
    0.0.0.0 and started 120 days ago, the warnings are public exposure and
    root privilege, then the working-directory warning if the directory is
    on the deny list, then long-running, then the no-supervisor warning if
    the verdict of [Detect] is Unknown; so exactly the three of the scenario
    when the directory is not on the list and the verdict is not Unknown. *)
Theorem Warnings_exposed_root (ancestry : list P) (target : P) :
  last ancestry = Some target ->
  GetUser target = "root" ->
  GetBindAddresses target = ["0.0.0.0"] ->
  GetHealth target = "healthy" ->
  time.Sub now (GetStartedAt target) = 120 * 24 * time.Hour ->
  Warnings ancestry =
    ([public_warning; root_warning]
     ++ rule (suspicious_dir (GetWorkingDir target))
          (dir_warning (GetWorkingDir target))
     ++ [age_warning]
     ++ rule (bool_decide (Type_ (Detect ancestry) = SourceUnknown))
          unknown_warning)%list /\
  (suspicious_dir (GetWorkingDir target) = false ->
   Type_ (Detect ancestry) <> SourceUnknown ->
   Warnings ancestry = [public_warning; root_warning; age_warning]).
Proof.
  intros Hlast Huser Hbind Hhealth Hage.
  assert (long_running now (GetStartedAt target) = true) as Hlong.
  { unfold long_running. rewrite Hage. reflexivity. }
  rewrite Warnings_rules, Hlast, Huser, Hbind, Hhealth, Hlong.
  split; [reflexivity|].
  intros -> Hknown. rewrite (bool_decide_eq_false_2 _ Hknown).
  reflexivity.
Qed.

(** C8: the public-exposure warning is among the warnings exactly when some
    bind address of the target is 0.0.0.0 or ::; it is absent for a
    target bound only to 127.0.0.1 and present for one bound to 0.0.0.0. *)
Theorem public_warning_iff (ancestry : list P) (target : P) :
  last ancestry = Some target ->
  (public_warning ∈ Warnings ancestry <->
   exists a, a ∈ GetBindAddresses target /\ (a = "0.0.0.0" \/ a = "::")) /\
  (GetBindAddresses target = ["127.0.0.1"] ->
   public_warning ∉ Warnings ancestry) /\
  ("0.0.0.0" ∈ GetBindAddresses target ->
   public_warning ∈ Warnings ancestry).
Proof.
  intros Hlast.
  assert (public_warning ∈ Warnings ancestry <->
          isPublicBind (GetBindAddresses target) = true) as Hiff.
  { rewrite Warnings_rules, Hlast. rewrite !elem_of_app, !elem_of_rule.
    split; [|tauto].
    intros [Hh | [[Hp _] | [[_ Hx] | [[_ Hx] | [[_ Hx] | [_ Hx]]]]]];
      try discriminate Hx; [|assumption].
    exfalso. exact (public_warning_not_health _ Hh). }
  split; [|split].
  - rewrite Hiff. apply isPublicBind_true.
  - intros Hb. rewrite Hiff, Hb. discriminate.
  - intros Hin. apply Hiff, isPublicBind_true. eauto.
Qed.

(** C9: when the first process of the ancestry has identifier 1 and the
    command of the platform's init, [detectInit] returns that init system:
    systemd with confidence 0.8 on linux; on darwin launchd with the label
    and domain that [launchctl] reports for the target and confidence 0.9,
    or plain launchd with confidence 0.8 when the label is empty, which
    includes the case that [launchctl] failed. *)
Theorem detectInit_topmost (top : P) (rest : list P) :
  GetPID top = 1 ->
  (GetCommand top = "systemd" ->
   detect.detectInit launchctl_blame linux (top :: rest) =
   Some {| Type_ := SourceSystemd; Name := "systemd"; Confidence := 0.8;
           Details := ∅ |}) /\
  (GetCommand top = "launchd" ->
   forall target, last (top :: rest) = Some target ->
     (forall label domain,
        getLaunchdLabel launchctl_blame (GetPID target) = (label, domain) ->
        label <> "" ->
        detect.detectInit launchctl_blame darwin (top :: rest) =
        Some {| Type_ := SourceLaunchd; Name := label; Confidence := 0.9;
                Details := {[ "domain" := domain ]} |}) /\
     (forall domain,
        getLaunchdLabel launchctl_blame (GetPID target) = ("", domain) ->
        detect.detectInit launchctl_blame darwin (top :: rest) =
        Some launchd) /\
     (launchctl_blame (GetPID target) = None ->
      detect.detectInit launchctl_blame darwin (top :: rest) =
      Some launchd)) /\
  Type_ launchd = SourceLaunchd /\ Confidence launchd = 0.8%Q.
Proof.
  intros Hpid. split; [|split; [|split; reflexivity]].
  - intros Hcmd. unfold detect.detectInit. simpl.
    rewrite !bool_decide_eq_true_2 by assumption. reflexivity.
  - intros Hcmd target Hlast.
    assert (detect.detectInit launchctl_blame darwin (top :: rest) =
            let '(label, domain) :=
              getLaunchdLabel launchctl_blame (GetPID target) in
            if bool_decide (label <> "")
            then Some {| Type_ := SourceLaunchd; Name := label;
                         Confidence := 0.9;
                         Details := {[ "domain" := domain ]} |}
            else Some launchd) as Hstep.
    { unfold detect.detectInit.
      change (detectInit_darwin_loop launchctl_blame (top :: rest)
                (top :: rest))
        with (if bool_decide (GetPID top = 1)
                 && bool_decide (GetCommand top = "launchd")
              then match last (top :: rest) with
                   | Some target =>
                       let '(label, domain) :=
                         getLaunchdLabel launchctl_blame (GetPID target) in
                       if bool_decide (label <> "")
                       then Some {| Type_ := SourceLaunchd; Name := label;
                                    Confidence := 0.9;
                                    Details := {[ "domain" := domain ]} |}
                       else Some launchd
                   | None => Some launchd
                   end
              else detectInit_darwin_loop launchctl_blame (top :: rest) rest).
      rewrite !bool_decide_eq_true_2 by assumption. simpl andb. cbv iota.
      rewrite Hlast. reflexivity. }
    rewrite Hstep. repeat split.
    + intros label domain -> Hne.
      rewrite bool_decide_eq_true_2 by assumption. reflexivity.
    + intros domain ->. reflexivity.
    + intros Hfail. unfold getLaunchdLabel. rewrite Hfail. reflexivity.
Qed.

End DetectorClaims.

Lemma Detect_priority_witness :
  detect.names_supervisor fixtures.id_map fixtures.supervised_in_pod /\
  detect.detectSupervisor fixtures.id_map fixtures.forward_order fixtures.supervised_in_pod
    = Some (detect.supervisor "supervisord" 0.7) /\
  detect.Detect fixtures.id_map fixtures.pod_files fixtures.no_launchctl detect.linux
    fixtures.forward_order fixtures.supervised_in_pod = detect.container.
Proof.
  split; [|split].
  - exists (fixtures.mkProcess 8 1 "supervisord" "supervisord -n" "root" [] "/"),
      "supervisord".
    split; [|vm_compute; reflexivity].
    apply list_elem_of_further, list_elem_of_here.
  - vm_compute. reflexivity.
  - eapply (proj2 (proj2 (Detect_priority fixtures.id_map fixtures.pod_files
              fixtures.no_launchctl detect.linux fixtures.forward_order
              fixtures.supervised_in_pod))); [|reflexivity].
    exists (fixtures.mkProcess 1 0 "tini" "tini -- supervisord" "root" [] "/"),
      "0::/kubepods/besteffort/pod42".
    split; [apply list_elem_of_here|]. split; vm_compute; reflexivity.
Defined.

(** * The claims on concrete inputs *)

Lemma forward_order_valid : detect.valid_order fixtures.forward_order.
Proof. intros i. reflexivity. Qed.

Lemma backward_order_valid : detect.valid_order fixtures.backward_order.
Proof.
  intros i. unfold fixtures.backward_order.
  exact (reverse_Permutation (map_to_list detect.supervisors)).
Qed.

(** C5: two executions of [Detect] on the same ancestry, with the same files
    and the same [launchctl], can differ in the name they report: the command
    line of process 300 contains two keys of the registry, and the range over
    the registry returns the one it meets first. *)
Theorem Detect_name_depends_on_range_order (MapLower : string -> string) :
  detect.valid_order fixtures.forward_order /\
  detect.valid_order fixtures.backward_order /\
  detect.Detect MapLower fixtures.no_files fixtures.no_launchctl detect.linux
    fixtures.forward_order fixtures.wrapped_supervisor
    = detect.supervisor "supervisord" 0.7 /\
  detect.Detect MapLower fixtures.no_files fixtures.no_launchctl detect.linux
    fixtures.backward_order fixtures.wrapped_supervisor
    = detect.supervisor "monit" 0.7 /\
  detect.Name
    (detect.Detect MapLower fixtures.no_files fixtures.no_launchctl
       detect.linux fixtures.forward_order fixtures.wrapped_supervisor) <>
  detect.Name
    (detect.Detect MapLower fixtures.no_files fixtures.no_launchctl
       detect.linux fixtures.backward_order fixtures.wrapped_supervisor).
Proof.
  split; [exact forward_order_valid|]. split; [exact backward_order_valid|].
  split; [vm_compute; reflexivity|]. split; [vm_compute; reflexivity|].
  vm_compute. discriminate.
Qed.

Lemma detectSupervisor_nearest_witness :
  exists sup name,
    detect.supervisors !! sup = Some name /\
    Strings.Contains
      (Strings.ToLower fixtures.id_map
         "python /usr/bin/supervisord -c /etc/monit/supervisord.conf") sup
      = true /\
    detect.detectSupervisor fixtures.id_map fixtures.forward_order fixtures.wrapped_supervisor
      = Some (detect.supervisor name 0.7).
Proof.
  assert (Forall (detect.no_supervisor_match fixtures.id_map)
            [fixtures.mkProcess 301 300 "worker" "worker --id 1" "app" []
               "/srv"]) as Hback.
  { constructor; [|constructor].
    split; [vm_compute; reflexivity|]. split; [vm_compute; reflexivity|].
    apply (detect_facts.range_no_match fixtures.id_map fixtures.forward_order 0);
      [exact forward_order_valid | vm_compute; reflexivity]. }
  destruct (detectSupervisor_nearest fixtures.id_map fixtures.forward_order
              [fixtures.mkProcess 1 0 "init" "/sbin/init" "root" [] "/"]
              [fixtures.mkProcess 301 300 "worker" "worker --id 1" "app" []
                 "/srv"]
              (fixtures.mkProcess 300 1 "python"
                 "python /usr/bin/supervisord -c /etc/monit/supervisord.conf"
                 "root" [] "/")
              forward_order_valid Hback) as (_ & _ & Hc & _).
  apply Hc.
  - vm_compute. reflexivity.
  - vm_compute. reflexivity.
  - exists "supervisord", "supervisord". split; vm_compute; reflexivity.
Defined.

(** C7 as stated fails: this target fits the scenario and gets a fourth
    warning, because nothing in its ancestry is known to the detector. *)
Lemma Warnings_exposed_root_four :
  last fixtures.exposed_root_job
    = Some (fixtures.mkProcess 300 200 "myjob" "myjob --serve" "root"
              ["0.0.0.0"] "/srv") /\
  time.Sub (120 * fixtures.day) 0 = 120 * 24 * time.Hour /\
  detect.Warnings fixtures.id_map fixtures.no_files fixtures.no_launchctl
    (120 * fixtures.day) detect.linux fixtures.forward_order
    fixtures.exposed_root_job
  = [detect.public_warning; detect.root_warning; detect.age_warning;
     detect.unknown_warning] /\
  detect.Warnings fixtures.id_map fixtures.no_files fixtures.no_launchctl
    (120 * fixtures.day) detect.linux fixtures.forward_order
    fixtures.exposed_root_job
  <> [detect.public_warning; detect.root_warning; detect.age_warning].
Proof.
  split; [reflexivity|]. split; [vm_compute; reflexivity|].
  split; [vm_compute; reflexivity|]. vm_compute. discriminate.
Qed.

Lemma Warnings_exposed_root_witness :
  detect.Warnings fixtures.id_map fixtures.no_files fixtures.no_launchctl
    (120 * fixtures.day) detect.linux fixtures.forward_order
    fixtures.exposed_root_service
  = [detect.public_warning; detect.root_warning; detect.age_warning].
Proof.
  destruct (Warnings_exposed_root fixtures.id_map fixtures.no_files fixtures.no_launchctl
              (120 * fixtures.day) detect.linux fixtures.forward_order
              fixtures.exposed_root_service
              (fixtures.mkProcess 300 1 "myjob" "myjob --serve" "root"
                 ["0.0.0.0"] "/srv")) as [_ Hthree].
  - reflexivity.
  - reflexivity.
  - reflexivity.
  - reflexivity.
  - vm_compute. reflexivity.
  - apply Hthree; [vm_compute; reflexivity | vm_compute; discriminate].
Defined.

Lemma public_warning_iff_witness :
  (detect.public_warning
     ∉ detect.Warnings fixtures.id_map fixtures.no_files fixtures.no_launchctl
         (120 * fixtures.day) detect.linux fixtures.forward_order
         fixtures.loopback_service) /\
  (detect.public_warning
     ∈ detect.Warnings fixtures.id_map fixtures.no_files fixtures.no_launchctl
         (120 * fixtures.day) detect.linux fixtures.forward_order
         fixtures.exposed_root_service).
Proof.
  split.
  - destruct (public_warning_iff fixtures.id_map fixtures.no_files fixtures.no_launchctl
                (120 * fixtures.day) detect.linux fixtures.forward_order
                fixtures.loopback_service
                (fixtures.mkProcess 300 1 "myjob" "myjob --serve" "app"
                   ["127.0.0.1"] "/srv")) as (_ & Hloop & _);
      [reflexivity|].
    apply Hloop. reflexivity.
  - destruct (public_warning_iff fixtures.id_map fixtures.no_files fixtures.no_launchctl
                (120 * fixtures.day) detect.linux fixtures.forward_order
                fixtures.exposed_root_service
                (fixtures.mkProcess 300 1 "myjob" "myjob --serve" "root"
                   ["0.0.0.0"] "/srv")) as (_ & _ & Hany);
      [reflexivity|].
    apply Hany. apply list_elem_of_here.
Defined.

Lemma detectInit_topmost_witness :
  detect.detectInit fixtures.gui_launchctl detect.darwin
    fixtures.launchd_agent
  = Some {| detect.Type_ := detect.SourceLaunchd;
            detect.Name := "com.example.agent";
            detect.Confidence := 0.9;
            detect.Details := {[ "domain" := "gui/501" ]} |} /\
  detect.detectInit fixtures.no_launchctl detect.darwin
    fixtures.launchd_agent
  = Some detect.launchd.
Proof.
  split.
  - destruct (detectInit_topmost fixtures.gui_launchctl
                (fixtures.mkProcess 1 0 "launchd" "/sbin/launchd" "root" []
                   "/")
                [fixtures.mkProcess 77 1 "agent" "agent --run" "me" []
                   "/Users/me"]) as (_ & Hd & _); [reflexivity|].
    destruct (Hd eq_refl _ eq_refl) as (Hlabel & _ & _).
    apply Hlabel; [vm_compute; reflexivity | discriminate].
  - destruct (detectInit_topmost fixtures.no_launchctl
                (fixtures.mkProcess 1 0 "launchd" "/sbin/launchd" "root" []
                   "/")
                [fixtures.mkProcess 77 1 "agent" "agent --run" "me" []
                   "/Users/me"]) as (_ & Hd & _); [reflexivity|].
    destruct (Hd eq_refl _ eq_refl) as (_ & _ & Hfail).
    apply Hfail. reflexivity.
Defined.

(** * Further properties of the detector's helpers *)

Module helper_facts.

Import Strings detect.

Lemma string_app_assoc (s t u : string) : (s ++ t) ++ u = s ++ (t ++ u).
Proof.
  induction s as [|c s IH]; [reflexivity|].
  change (String c ((s ++ t) ++ u) = String c (s ++ (t ++ u))).
  f_equal. exact IH.
Qed.

Lemma string_app_nil_r (s : string) : s ++ "" = s.
Proof.
  induction s as [|c s IH]; [reflexivity|].
  change (String c (s ++ "") = String c s). f_equal. exact IH.
Qed.

Lemma digit_value_of_digit (r : Z) :
  0 <= r < 10 ->
  digit_value (ascii_of_N (Z.to_N (48 + r))) = Some r.
Proof.
  intros Hr.
  assert (r = 0 \/ r = 1 \/ r = 2 \/ r = 3 \/ r = 4 \/ r = 5 \/ r = 6 \/
          r = 7 \/ r = 8 \/ r = 9) as Hcases by lia.
  repeat (destruct Hcases as [-> | Hcases]; [reflexivity|]).
  subst r. reflexivity.
Qed.

Lemma decimal_acc_app (s t : string) (acc : Z) :
  decimal_acc (s ++ t) acc =
  match decimal_acc s acc with
  | Some a => decimal_acc t a
  | None => None
  end.
Proof.
  revert acc. induction s as [|c s IH]; intros acc; simpl; [reflexivity|].
  destruct (digit_value c); [apply IH | reflexivity].
Qed.

(** With [i] free bytes and a positive [n] of at most [i] digits, the loop
    puts the digits of [n] in front of what the buffer holds. *)
Lemma itoa_loop_digits (i : nat) :
  forall (n : Z) (b : string),
    0 < n < 10 ^ Z.of_nat i ->
    exists ds, ds <> "" /\ itoa_loop i n b = ds ++ b /\
               decimal_acc ds 0 = Some n.
Proof.
  induction i as [|i IH]; intros n b Hn.
  - simpl in Hn. lia.
  - cbn [itoa_loop]. rewrite bool_decide_eq_true_2 by lia.
    set (d := ascii_of_N (Z.to_N (48 + Z.rem n 10))).
    assert (0 <= Z.rem n 10 < 10) as Hrem
      by (rewrite Z.rem_mod_nonneg by lia; apply Z.mod_pos_bound; lia).
    assert (n = 10 * Z.quot n 10 + Z.rem n 10) as Hdiv
      by (apply Z.quot_rem'; lia).
    assert (0 <= Z.quot n 10) as Hq by (apply Z.quot_pos; lia).
    destruct (decide (Z.quot n 10 = 0)) as [Hz | Hnz].
    + exists (String d ""). rewrite Hz.
      split; [discriminate|]. split.
      * destruct i; reflexivity.
      * simpl. unfold d. rewrite digit_value_of_digit by assumption.
        f_equal. lia.
    + destruct (IH (Z.quot n 10) (String d b)) as (ds & Hne & Hloop & Hval).
      { split; [lia|].
        rewrite Nat2Z.inj_succ, Z.pow_succ_r in Hn by lia. lia. }
      exists (ds ++ String d ""). split; [|split].
      * destruct ds; discriminate.
      * rewrite Hloop, string_app_assoc. reflexivity.
      * rewrite decimal_acc_app, Hval. simpl. unfold d.
        rewrite digit_value_of_digit by assumption. f_equal. lia.
Qed.

Lemma itoa_loop_nonpos (i : nat) (n : Z) (b : string) :
  n <= 0 -> itoa_loop i n b = b.
Proof.
  intros Hn. destruct i; [reflexivity|].
  cbn [itoa_loop]. rewrite bool_decide_eq_false_2 by lia. reflexivity.
Qed.

Lemma itoa_decimal_nonneg (n : Z) :
  0 <= n < 2 ^ 63 -> decimal (itoa n) = Some n.
Proof.
  intros Hn. unfold itoa.
  case_bool_decide as Hz; [subst; reflexivity|].
  destruct (itoa_loop_digits 20 n "") as (ds & Hne & Hloop & Hval);
    [change (10 ^ Z.of_nat 20) with 100000000000000000000; lia|].
  rewrite Hloop, string_app_nil_r.
  destruct ds; [contradiction | exact Hval].
Qed.

End helper_facts.

(** X1: [itoa] prints a non-negative [int] in decimal, so different
    identifiers give different cgroup paths; a negative number prints as the
    empty string. *)
Theorem itoa_decimal (n : Z) :
  (n < 0 -> detect.itoa n = "") /\
  (0 <= n < 2 ^ 63 -> Strings.decimal (detect.itoa n) = Some n) /\
  (forall m, 0 <= n < 2 ^ 63 -> 0 <= m < 2 ^ 63 ->
             detect.itoa n = detect.itoa m -> n = m).
Proof.
  split; [|split].
  - intros Hneg. unfold detect.itoa.
    rewrite bool_decide_eq_false_2 by lia.
    apply helper_facts.itoa_loop_nonpos. lia.
  - apply helper_facts.itoa_decimal_nonneg.
  - intros m Hn Hm Heq.
    apply helper_facts.itoa_decimal_nonneg in Hn, Hm.
    rewrite Heq in Hn. congruence.
Qed.

Lemma itoa_decimal_witness :
  detect.itoa (-7) = "" /\ Strings.decimal (detect.itoa 4242) = Some 4242.
Proof.
  split.
  - apply (proj1 (itoa_decimal (-7))). lia.
  - apply (proj1 (proj2 (itoa_decimal 4242))). lia.
Defined.

(** * Further properties of the source detector *)

Module scan_facts.

Import Strings detect detect_spec detect_facts.

Lemma shells_spec (c : string) :
  default false (shells !! c) = true <-> c ∈ ["bash"; "zsh"; "sh"; "fish"].
Proof.
  split.
  - destruct (shells !! c) as [b|] eqn:Hl; [|discriminate].
    simpl. intros ->. apply elem_of_map_to_list in Hl.
    assert (map_to_list shells =
            [("sh", true); ("fish", true); ("zsh", true); ("bash", true)])
      as Hlist by (vm_compute; reflexivity).
    rewrite Hlist in Hl.
    repeat (apply elem_of_cons in Hl as [[= ->] | Hl];
            [repeat (first [apply list_elem_of_here
                           | apply list_elem_of_further])|]).
    apply elem_of_nil in Hl. contradiction.
  - intros Hin.
    repeat (apply elem_of_cons in Hin as [-> | Hin]; [reflexivity|]).
    apply elem_of_nil in Hin. contradiction.
Qed.

Section Scans.

Context {P : Type} `{Process P}.

Lemma detectCron_loop_Some (ancestry : list P) n src :
  detectCron_loop ancestry n = Some src -> src = cron.
Proof.
  induction n as [|i IH]; cbn [detectCron_loop]; [discriminate|].
  destruct (ancestry !! i) as [p|]; [|discriminate].
  destruct (_ || _); [intros [= <-]; reflexivity | exact IH].
Qed.

Lemma detectCron_loop_found (ancestry : list P) n src :
  detectCron_loop ancestry n = Some src ->
  exists p, p ∈ ancestry /\ is_cron p.
Proof.
  induction n as [|i IH]; cbn [detectCron_loop]; [discriminate|].
  destruct (ancestry !! i) as [p|] eqn:Hp; [|discriminate].
  destruct (bool_decide (GetCommand p = "cron")) eqn:H1;
    [apply bool_decide_eq_true in H1|]; simpl.
  { intros _. exists p. split; [|left; assumption].
    eapply list_elem_of_lookup_2. eassumption. }
  destruct (bool_decide (GetCommand p = "crond")) eqn:H2;
    [apply bool_decide_eq_true in H2|].
  { intros _. exists p. split; [|right; assumption].
    eapply list_elem_of_lookup_2. eassumption. }
  exact IH.
Qed.

Lemma detectCron_loop_None (ancestry : list P) n :
  (n <= length ancestry)%nat ->
  detectCron_loop ancestry n = None <->
  forall i p, (i < n)%nat -> ancestry !! i = Some p -> ~ is_cron p.
Proof.
  induction n as [|i IH]; intros Hn; cbn [detectCron_loop].
  - split; [intros _ i p Hi; lia | reflexivity].
  - destruct (lookup_lt_is_Some_2 ancestry i ltac:(lia)) as [p Hp].
    rewrite Hp. unfold is_cron.
    destruct (bool_decide (GetCommand p = "cron")) eqn:H1;
      [apply bool_decide_eq_true in H1 | apply bool_decide_eq_false in H1];
      simpl.
    { split; [discriminate|]. intros Hall. exfalso.
      apply (Hall i p); [lia | assumption | left; assumption]. }
    destruct (bool_decide (GetCommand p = "crond")) eqn:H2;
      [apply bool_decide_eq_true in H2 | apply bool_decide_eq_false in H2].
    { split; [discriminate|]. intros Hall. exfalso.
      apply (Hall i p); [lia | assumption | right; assumption]. }
    rewrite IH by lia. split.
    + intros Hall j q Hj Hq.
      destruct (decide (j = i)) as [-> | Hne].
      * assert (q = p) as -> by congruence. tauto.
      * apply (Hall j q); [lia | assumption].
    + intros Hall j q Hj. apply Hall. lia.
Qed.

Lemma detectShell_loop_None (ancestry : list P) n :
  (n <= length ancestry)%nat ->
  detectShell_loop ancestry n = None <->
  forall i p, (i < n)%nat -> ancestry !! i = Some p -> ~ is_shell p.
Proof.
  induction n as [|i IH]; intros Hn; cbn [detectShell_loop].
  - split; [intros _ i p Hi; lia | reflexivity].
  - destruct (lookup_lt_is_Some_2 ancestry i ltac:(lia)) as [p Hp].
    rewrite Hp. unfold is_shell.
    destruct (default false (shells !! GetCommand p)) eqn:Hs.
    { apply shells_spec in Hs. split; [discriminate|]. intros Hall. exfalso.
      apply (Hall i p); [lia | assumption | assumption]. }
    assert (~ GetCommand p ∈ ["bash"; "zsh"; "sh"; "fish"]) as Hno.
    { intros Hin%shells_spec. congruence. }
    rewrite IH by lia. split.
    + intros Hall j q Hj Hq.
      destruct (decide (j = i)) as [-> | Hne].
      * assert (q = p) as -> by congruence. assumption.
      * apply (Hall j q); [lia | assumption].
    + intros Hall j q Hj. apply Hall. lia.
Qed.

Lemma detectShell_loop_S (ancestry : list P) i (p : P) :
  ancestry !! i = Some p ->
  detectShell_loop ancestry (S i) =
  if default false (shells !! GetCommand p)
  then Some (shell (GetCommand p))
  else detectShell_loop ancestry i.
Proof.
  intros Hp. cbn [detectShell_loop]. rewrite Hp. reflexivity.
Qed.

Lemma lookup_snoc_last (l : list P) (q : P) :
  (l ++ [q])%list !! length l = Some q.
Proof.
  rewrite lookup_app_r by lia. rewrite Nat.sub_diag. reflexivity.
Qed.

Lemma detectShell_loop_app (front back : list P) n :
  (n <= length front)%nat ->
  detectShell_loop (front ++ back) n = detectShell_loop front n.
Proof.
  induction n as [|i IH]; intros Hn; [reflexivity|].
  cbn [detectShell_loop]. rewrite lookup_app_l by lia.
  destruct (front !! i) as [p|]; [|reflexivity].
  rewrite IH by lia. reflexivity.
Qed.

Lemma detectShell_skip_back (front back : list P) :
  Forall (fun q => ~ is_shell q) back ->
  detectShell (front ++ back) = detectShell front.
Proof.
  intros Hback. unfold detectShell.
  induction back as [|q back IH] using rev_ind.
  - rewrite app_nil_r. reflexivity.
  - apply Forall_app in Hback as [Hback Hq]. apply Forall_inv in Hq.
    rewrite app_assoc.
    rewrite (length_app (front ++ back)%list [q]). cbn [length].
    rewrite Nat.add_1_r.
    rewrite (detectShell_loop_S _ _ q) by apply lookup_snoc_last.
    destruct (default false (shells !! GetCommand q)) eqn:Hs.
    { apply shells_spec in Hs. contradiction. }
    rewrite detectShell_loop_app by lia. apply IH. assumption.
Qed.

Lemma forall_lookup_elem (l : list P) (Q : P -> Prop) :
  (forall i p, (i < length l)%nat -> l !! i = Some p -> Q p) <->
  (forall p, p ∈ l -> Q p).
Proof.
  split.
  - intros Hall p [i Hi]%list_elem_of_lookup.
    apply (Hall i p); [|assumption]. eapply lookup_lt_Some. eassumption.
  - intros Hall i p _ Hi. apply Hall. eapply list_elem_of_lookup_2.
    eassumption.
Qed.

End Scans.

End scan_facts.

Section ScanClaims.

Import Strings detect detect_spec detect_facts scan_facts.

Context {P : Type} `{Process P}.

(** X2: [detectCron] answers cron with confidence 0.6 exactly when some
    process of the ancestry has the command cron or crond, compared byte for
    byte, and has no verdict otherwise. *)
Theorem detectCron_iff (ancestry : list P) :
  (detectCron ancestry = Some cron <->
   exists p, p ∈ ancestry /\ is_cron p) /\
  (detectCron ancestry = None <->
   forall p, p ∈ ancestry -> ~ is_cron p).
Proof.
  assert (detectCron ancestry = None <->
          forall p, p ∈ ancestry -> ~ is_cron p) as Hnone.
  { unfold detectCron. rewrite detectCron_loop_None by lia.
    apply forall_lookup_elem. }
  split; [|exact Hnone].
  destruct (detectCron ancestry) as [src|] eqn:Hd.
  - pose proof (detectCron_loop_found _ _ _ Hd) as Hfound.
    apply detectCron_loop_Some in Hd as ->.
    split; [intros _; exact Hfound | reflexivity].
  - split; [discriminate|].
    intros (p & Hin & Hc). exfalso.
    exact (proj1 Hnone eq_refl p Hin Hc).
Qed.

(** X3: [detectShell] reports the shell nearest to the target, under the
    shell's own command name and with confidence 0.5, and has no verdict
    exactly when no process of the ancestry is bash, zsh, sh or fish. *)
Theorem detectShell_nearest (front back : list P) (p : P) :
  (is_shell p -> Forall (fun q => ~ is_shell q) back ->
   detectShell (front ++ p :: back) = Some (shell (GetCommand p))) /\
  (detectShell (front ++ p :: back) = None <->
   forall q, q ∈ (front ++ p :: back)%list -> ~ is_shell q).
Proof.
  split.
  - intros Hp Hback.
    rewrite (cons_middle p front back), app_assoc.
    rewrite detectShell_skip_back by assumption.
    unfold detectShell. rewrite length_app. cbn [length].
    rewrite Nat.add_1_r.
    rewrite (detectShell_loop_S _ _ p) by apply lookup_snoc_last.
    apply shells_spec in Hp. rewrite Hp. reflexivity.
  - unfold detectShell. rewrite detectShell_loop_None by lia.
    apply forall_lookup_elem.
Qed.

End ScanClaims.

Lemma detectShell_nearest_witness :
  detect.detectShell
    [fixtures.mkProcess 1 0 "init" "/sbin/init" "root" [] "/";
     fixtures.mkProcess 20 1 "zsh" "-zsh" "me" [] "/home/me";
     fixtures.mkProcess 21 20 "bash" "bash run.sh" "me" [] "/home/me";
     fixtures.mkProcess 22 21 "myjob" "myjob" "me" [] "/home/me"]
  = Some (detect_spec.shell "bash").
Proof.
  destruct (detectShell_nearest
              [fixtures.mkProcess 1 0 "init" "/sbin/init" "root" [] "/";
               fixtures.mkProcess 20 1 "zsh" "-zsh" "me" [] "/home/me"]
              [fixtures.mkProcess 22 21 "myjob" "myjob" "me" [] "/home/me"]
              (fixtures.mkProcess 21 20 "bash" "bash run.sh" "me" []
                 "/home/me")) as [Hnear _].
  refine (Hnear _ _).
  - apply list_elem_of_here.
  - constructor; [|constructor].
    intros Hin%scan_facts.shells_spec. vm_compute in Hin. discriminate Hin.
Defined.

Module verdict_facts.

Import Strings detect detect_spec detect_facts scan_facts.

Section Verdicts.

Context {P : Type} `{Process P}.
Variable MapLower : string -> string.
Variable ReadFile : string -> option string.
Variable launchctl_blame : Z -> option string.
Variable goos : GOOS.

Lemma detectSupervisor_loop_same (o1 o2 : RangeOrder) (ancestry : list P) n :
  valid_order o1 -> valid_order o2 ->
  same_verdict (detectSupervisor_loop MapLower o1 ancestry n)
               (detectSupervisor_loop MapLower o2 ancestry n).
Proof.
  intros Hv1 Hv2. induction n as [|i IH]; [exact I|].
  cbn [detectSupervisor_loop].
  destruct (ancestry !! i) as [p|]; [|exact I].
  destruct (_ || _); [repeat split|].
  destruct (supervisors !! ToLower MapLower (GetCommand p)); [repeat split|].
  destruct (rangeSupervisors (o1 i) (ToLower MapLower (GetCmdline p))) eqn:H1,
           (rangeSupervisors (o2 i) (ToLower MapLower (GetCmdline p))) eqn:H2.
  - repeat split.
  - apply (range_no_match MapLower o2 i p Hv2) in H2.
    apply rangeSupervisors_Some in H1 as (sup & Hin & Hc).
    apply (valid_order_lookup o1 i) in Hin; [|assumption].
    exfalso. apply H2. exists sup. eauto.
  - apply (range_no_match MapLower o1 i p Hv1) in H1.
    apply rangeSupervisors_Some in H2 as (sup & Hin & Hc).
    apply (valid_order_lookup o2 i) in Hin; [|assumption].
    exfalso. apply H1. exists sup. eauto.
  - exact IH.
Qed.

Lemma detectSupervisor_loop_verdict (o : RangeOrder) (ancestry : list P) n src :
  detectSupervisor_loop MapLower o ancestry n = Some src ->
  Type_ src = SourceSupervisor /\
  (Confidence src = 0.9%Q \/ Confidence src = 0.7%Q).
Proof.
  induction n as [|i IH]; cbn [detectSupervisor_loop]; [discriminate|].
  destruct (ancestry !! i) as [p|]; [|discriminate].
  destruct (_ || _); [intros [= <-]; split; [reflexivity | left; reflexivity]|].
  destruct (supervisors !! _);
    [intros [= <-]; split; [reflexivity | right; reflexivity]|].
  destruct (rangeSupervisors _ _);
    [intros [= <-]; split; [reflexivity | right; reflexivity]|].
  exact IH.
Qed.

Lemma detectShell_loop_verdict (ancestry : list P) n src :
  detectShell_loop ancestry n = Some src ->
  Type_ src = SourceShell /\ Confidence src = 0.5%Q.
Proof.
  induction n as [|i IH]; cbn [detectShell_loop]; [discriminate|].
  destruct (ancestry !! i) as [p|]; [|discriminate].
  destruct (default false _); [intros [= <-]; split; reflexivity | exact IH].
Qed.

Lemma detectInit_verdict (ancestry : list P) src :
  detectInit launchctl_blame goos ancestry = Some src ->
  (Type_ src = SourceSystemd /\ Confidence src = 0.8%Q) \/
  (Type_ src = SourceLaunchd /\
   (Confidence src = 0.9%Q \/ Confidence src = 0.8%Q)).
Proof.
  unfold detectInit. destruct goos.
  - induction ancestry as [|p rest IH]; simpl; [discriminate|].
    destruct (_ && _); [intros [= <-]; left; split; reflexivity | exact IH].
  - generalize ancestry at 1. intros all.
    induction ancestry as [|p rest IH]; cbn [detectInit_darwin_loop];
      [discriminate|].
    destruct (_ && _); [|exact IH].
    destruct (last all) as [t|];
      [|intros [= <-]; right; split; [reflexivity | right; reflexivity]].
    destruct (getLaunchdLabel launchctl_blame (GetPID t)) as [label domain].
    destruct (bool_decide (label <> ""));
      intros [= <-]; right; split; try reflexivity;
      [left | right]; reflexivity.
Qed.

End Verdicts.

End verdict_facts.

Section VerdictClaims.

Import Strings detect detect_spec detect_facts scan_facts verdict_facts.

Context {P : Type} `{Process P}.
Variable MapLower : string -> string.
Variable ReadFile : string -> option string.
Variable launchctl_blame : Z -> option string.
Variable now : Z.
Variable goos : GOOS.

(** X4: the order in which the registry is ranged over can change the name
    of the verdict and nothing else: its category, confidence and details
    are the same for any two orders, and so is the list of warnings. *)
Theorem Detect_order_independent (o1 o2 : RangeOrder) (ancestry : list P) :
  valid_order o1 -> valid_order o2 ->
  let s1 := Detect MapLower ReadFile launchctl_blame goos o1 ancestry in
  let s2 := Detect MapLower ReadFile launchctl_blame goos o2 ancestry in
  Type_ s1 = Type_ s2 /\ Confidence s1 = Confidence s2 /\
  Details s1 = Details s2 /\
  Warnings MapLower ReadFile launchctl_blame now goos o1 ancestry =
  Warnings MapLower ReadFile launchctl_blame now goos o2 ancestry.
Proof.
  intros Hv1 Hv2 s1 s2.
  assert (Type_ s1 = Type_ s2 /\ Confidence s1 = Confidence s2 /\
          Details s1 = Details s2) as (Ht & Hc & Hd).
  { subst s1 s2. unfold Detect.
    destruct (detectContainer ReadFile ancestry); [repeat split|].
    pose proof (detectSupervisor_loop_same MapLower o1 o2 ancestry (length ancestry)
                  Hv1 Hv2) as Hsame.
    unfold detectSupervisor.
    destruct (detectSupervisor_loop MapLower o1 ancestry (length ancestry)),
             (detectSupervisor_loop MapLower o2 ancestry (length ancestry));
      try contradiction; [exact Hsame|].
    repeat split. }
  repeat split; try assumption.
  rewrite !Warnings_rules. destruct (last ancestry) as [t|]; [|reflexivity].
  fold s1 s2. rewrite Ht. reflexivity.
Qed.

(** X5: whatever the ancestry and the environment, the category and the
    confidence of the verdict are one of nine fixed pairs, the confidence
    lies between 0.2 and 0.9, and the category is Unknown exactly when none
    of the five classifiers has a verdict. *)
Theorem Detect_verdicts (order : RangeOrder) (ancestry : list P) :
  let src := Detect MapLower ReadFile launchctl_blame goos order ancestry in
  (Type_ src, Confidence src) ∈ verdicts /\
  (0.2 <= Confidence src <= 0.9)%Q /\
  (Type_ src = SourceUnknown <->
   detectContainer ReadFile ancestry = None /\
   detectSupervisor MapLower order ancestry = None /\
   detectCron ancestry = None /\
   detectShell ancestry = None /\
   detectInit launchctl_blame goos ancestry = None).
Proof.
  intros src.
  assert ((Type_ src, Confidence src) ∈ verdicts /\
          (Type_ src = SourceUnknown <->
           detectContainer ReadFile ancestry = None /\
           detectSupervisor MapLower order ancestry = None /\
           detectCron ancestry = None /\
           detectShell ancestry = None /\
           detectInit launchctl_blame goos ancestry = None)) as [Hin Hiff].
  { subst src. unfold Detect, verdicts.
    destruct (detectContainer ReadFile ancestry) as [s|] eqn:Hc.
    { apply detectContainer_Some in Hc as ->. simpl.
      split; [apply list_elem_of_here|].
      split; [discriminate | intros ([=] & _)]. }
    destruct (detectSupervisor MapLower order ancestry) as [s|] eqn:Hs.
    { apply detectSupervisor_loop_verdict in Hs as (Ht & [Hq | Hq]);
        rewrite Ht, Hq;
        (split; [|split; [discriminate | intros (_ & [=] & _)]]).
      - apply list_elem_of_further, list_elem_of_here.
      - do 2 apply list_elem_of_further. apply list_elem_of_here. }
    destruct (detectCron ancestry) as [s|] eqn:Hcr.
    { apply detectCron_loop_Some in Hcr as ->. simpl.
      split; [|split; [discriminate | intros (_ & _ & [=] & _)]].
      do 3 apply list_elem_of_further. apply list_elem_of_here. }
    destruct (detectShell ancestry) as [s|] eqn:Hsh.
    { apply detectShell_loop_verdict in Hsh as (Ht & Hq). rewrite Ht, Hq.
      split; [|split; [discriminate | intros (_ & _ & _ & [=] & _)]].
      do 4 apply list_elem_of_further. apply list_elem_of_here. }
    destruct (detectInit launchctl_blame goos ancestry) as [s|] eqn:Hi.
    { apply detectInit_verdict in Hi as [(Ht & Hq) | (Ht & [Hq | Hq])];
        rewrite Ht, Hq;
        (split; [|split; [discriminate | intros (_ & _ & _ & _ & [=])]]).
      - do 5 apply list_elem_of_further. apply list_elem_of_here.
      - do 6 apply list_elem_of_further. apply list_elem_of_here.
      - do 7 apply list_elem_of_further. apply list_elem_of_here. }
    simpl. split; [|tauto].
    do 8 apply list_elem_of_further. apply list_elem_of_here. }
  split; [exact Hin|]. split; [|exact Hiff].
  generalize Hin. generalize (Confidence src). generalize (Type_ src).
  intros t c Htc. unfold verdicts in Htc.
  repeat (apply elem_of_cons in Htc as [[= -> ->] | Htc];
          [split; discriminate|]).
  apply elem_of_nil in Htc. contradiction.
Qed.

End VerdictClaims.

Lemma Detect_order_independent_witness :
  detect.Type_
    (detect.Detect fixtures.id_map fixtures.no_files fixtures.no_launchctl detect.linux
       fixtures.forward_order fixtures.wrapped_supervisor) =
  detect.Type_
    (detect.Detect fixtures.id_map fixtures.no_files fixtures.no_launchctl detect.linux
       fixtures.backward_order fixtures.wrapped_supervisor) /\
  detect.Warnings fixtures.id_map fixtures.no_files fixtures.no_launchctl 0 detect.linux
    fixtures.forward_order fixtures.wrapped_supervisor =
  detect.Warnings fixtures.id_map fixtures.no_files fixtures.no_launchctl 0 detect.linux
    fixtures.backward_order fixtures.wrapped_supervisor.
Proof.
  destruct (Detect_order_independent fixtures.id_map fixtures.no_files fixtures.no_launchctl
              0 detect.linux fixtures.forward_order fixtures.backward_order
              fixtures.wrapped_supervisor forward_order_valid
              backward_order_valid) as (Ht & _ & _ & Hw).
  split; assumption.
Defined.

(** * Further properties of the warning engine *)

Module warning_facts.

Import Strings detect detect_spec detect_facts.

Lemma Hours_le (d k : Z) :
  (time.Hours d <= inject_Z k)%Q <-> d <= k * time.Hour.
Proof.
  unfold time.Hours.
  pose proof (Z.quot_rem' d time.Hour) as Hdiv.
  set (q := Z.quot d time.Hour) in *. set (r := Z.rem d time.Hour) in *.
  change time.Hour with 3600000000000 in *.
  unfold Qle, Qplus, Qdiv, Qmult, Qinv, inject_Z. simpl. lia.
Qed.

Lemma long_running_iff (now started : Z) :
  long_running now started = true <->
  90 * 24 * time.Hour < time.Sub now started.
Proof.
  unfold long_running. rewrite negb_true_iff.
  rewrite <- not_true_iff_false, Qle_bool_iff, Hours_le. lia.
Qed.

Lemma health_warning_elem (health x : string) :
  x ∈ health_warning health <-> (health, x) ∈ health_table.
Proof.
  unfold health_warning, health_table.
  rewrite !elem_of_cons, elem_of_nil.
  repeat case_bool_decide; subst;
    rewrite ?list_elem_of_singleton, ?elem_of_nil;
    (split;
     [ try (intros ->; auto 10); try contradiction
     | intros Hx;
       repeat (destruct Hx as [Hx | Hx];
               [try congruence|]);
       try contradiction ]).
Qed.

Lemma suspicious_dir_iff (dir : string) :
  suspicious_dir dir = true <-> dir ∈ ["/"; "/tmp"; "/var/tmp"].
Proof.
  unfold suspicious_dir. rewrite !orb_true_iff, !bool_decide_eq_true.
  rewrite !elem_of_cons, elem_of_nil. tauto.
Qed.

Section Rules.

Context {P : Type} `{Process P}.
Variable MapLower : string -> string.
Variable ReadFile : string -> option string.
Variable launchctl_blame : Z -> option string.
Variable now : Z.
Variable goos : GOOS.
Variable order : RangeOrder.

Lemma Warnings_elem (ancestry : list P) (t : P) (x : string) :
  last ancestry = Some t ->
  x ∈ Warnings MapLower ReadFile launchctl_blame now goos order ancestry <->
  x ∈ health_warning (GetHealth t) \/
  (isPublicBind (GetBindAddresses t) = true /\ x = public_warning) \/
  (bool_decide (GetUser t = "root") = true /\ x = root_warning) \/
  (suspicious_dir (GetWorkingDir t) = true /\
   x = dir_warning (GetWorkingDir t)) \/
  (long_running now (GetStartedAt t) = true /\ x = age_warning) \/
  (bool_decide
     (Type_ (Detect MapLower ReadFile launchctl_blame goos order ancestry)
      = SourceUnknown) = true /\ x = unknown_warning).
Proof.
  intros Hlast. rewrite Warnings_rules, Hlast.
  rewrite !elem_of_app, !elem_of_rule. reflexivity.
Qed.

End Rules.

End warning_facts.

Section WarningClaims.

Import Strings detect detect_spec detect_facts warning_facts.

Context {P : Type} `{Process P}.
Variable MapLower : string -> string.
Variable ReadFile : string -> option string.
Variable launchctl_blame : Z -> option string.
Variable now : Z.
Variable goos : GOOS.
Variable order : RangeOrder.

#[local] Abbreviation Warnings' :=
  (Warnings MapLower ReadFile launchctl_blame now goos order).

(** X6: for a non-empty ancestry each advisory is in the list exactly when
    its own rule fires on the target: a health advisory when the health
    label is the one it belongs to, the root advisory when the user is
    root, the directory advisory when the working directory is /, /tmp
    or /var/tmp, the long-running advisory when more than 90 days of
    nanoseconds have passed since the start (exactly 90 days is not
    enough), and the no-supervisor advisory when the verdict is Unknown. *)
Theorem Warnings_rules_iff (ancestry : list P) (t : P) :
  last ancestry = Some t ->
  (forall label w, (label, w) ∈ health_table ->
     (w ∈ Warnings' ancestry <-> GetHealth t = label)) /\
  (root_warning ∈ Warnings' ancestry <-> GetUser t = "root") /\
  (dir_warning (GetWorkingDir t) ∈ Warnings' ancestry <->
   GetWorkingDir t ∈ ["/"; "/tmp"; "/var/tmp"]) /\
  (age_warning ∈ Warnings' ancestry <->
   90 * 24 * time.Hour < time.Sub now (GetStartedAt t)) /\
  (unknown_warning ∈ Warnings' ancestry <->
   Type_ (Detect MapLower ReadFile launchctl_blame goos order ancestry)
   = SourceUnknown).
Proof.
  intros Hlast.
  pose proof (fun x => Warnings_elem MapLower ReadFile launchctl_blame now goos
                         order
                         ancestry t x Hlast) as Helem.
  split; [|split; [|split; [|split]]].
  - intros label w Hin. rewrite Helem, health_warning_elem.
    unfold health_table in *.
    repeat (apply elem_of_cons in Hin as [[= -> ->] | Hin];
            [rewrite !elem_of_cons, elem_of_nil;
             split;
             [intros [Hx | [[_ Hx] | [[_ Hx] | [[_ Hx] | [[_ Hx] | [_ Hx]]]]]];
              try discriminate Hx;
              repeat (destruct Hx as [Hx | Hx]; [congruence|]);
              contradiction
             | intros ->; left; auto 10]|]).
    apply elem_of_nil in Hin. contradiction.
  - rewrite Helem, health_warning_elem, bool_decide_eq_true.
    unfold health_table. rewrite !elem_of_cons, elem_of_nil.
    split; [|auto 10].
    intros [Hx | [[_ Hx] | [[Hr _] | [[_ Hx] | [[_ Hx] | [_ Hx]]]]]];
      try discriminate Hx; [|assumption].
    repeat (destruct Hx as [Hx | Hx]; [discriminate Hx|]). contradiction.
  - rewrite Helem, health_warning_elem, suspicious_dir_iff.
    unfold health_table. rewrite !elem_of_cons, elem_of_nil.
    split; [|auto 10].
    intros [Hx | [[_ Hx] | [[_ Hx] | [[Hd _] | [[_ Hx] | [_ Hx]]]]]];
      try discriminate Hx.
    + repeat (destruct Hx as [Hx | Hx]; [discriminate Hx|]). contradiction.
    + assumption.
  - rewrite Helem, health_warning_elem, long_running_iff.
    unfold health_table. rewrite !elem_of_cons, elem_of_nil.
    split; [|auto 10].
    intros [Hx | [[_ Hx] | [[_ Hx] | [[_ Hx] | [[Hl _] | [_ Hx]]]]]];
      try discriminate Hx; [|assumption].
    repeat (destruct Hx as [Hx | Hx]; [discriminate Hx|]). contradiction.
  - rewrite Helem, health_warning_elem.
    unfold health_table. rewrite !elem_of_cons, elem_of_nil.
    split.
    + intros [Hx | [[_ Hx] | [[_ Hx] | [[_ Hx] | [[_ Hx] | [Hu _]]]]]];
        try discriminate Hx;
        [|apply bool_decide_eq_true in Hu; assumption].
      repeat (destruct Hx as [Hx | Hx]; [discriminate Hx|]). contradiction.
    + intros Hu. do 5 right.
      split; [apply bool_decide_eq_true_2; assumption | reflexivity].
Qed.

End WarningClaims.

Lemma rule_sublist (fires : bool) (w : string) :
  sublist (detect.rule fires w) [w].
Proof. destruct fires; [reflexivity | apply sublist_nil_l]. Qed.

(** X7: no advisory occurs twice in the list of warnings, and the list has
    at most six entries, one per rule. *)
Theorem Warnings_no_duplicates {P : Type} `{detect.Process P}
    (MapLower : string -> string)
    (ReadFile : string -> option string) (launchctl_blame : Z -> option string)
    (now : Z) (goos : detect.GOOS) (order : detect.RangeOrder)
    (ancestry : list P) :
  NoDup (detect.Warnings MapLower ReadFile launchctl_blame now goos order ancestry) /\
  (length (detect.Warnings MapLower ReadFile launchctl_blame now goos order ancestry)
   <= 6)%nat.
Proof.
  rewrite detect_facts.Warnings_rules.
  destruct (last ancestry) as [t|]; [|split; [constructor | simpl; lia]].
  set (h := detect.health_warning (detect.GetHealth t)).
  set (d := detect.dir_warning (detect.GetWorkingDir t)).
  match goal with
  | |- NoDup ?w /\ _ =>
      assert (sublist w
                (h ++ [detect.public_warning] ++ [detect.root_warning] ++ [d]
                 ++ [detect.age_warning] ++ [detect.unknown_warning])%list)
        as Hsub by (repeat apply sublist_app; try apply rule_sublist;
                    reflexivity)
  end.
  assert (NoDup (h ++ [detect.public_warning] ++ [detect.root_warning] ++ [d]
                 ++ [detect.age_warning] ++ [detect.unknown_warning])%list
          /\ (length h <= 1)%nat) as [Hnd Hlen].
  { subst h d. unfold detect.health_warning.
    repeat case_bool_decide; (split; [|simpl; lia]); simpl;
      repeat (apply NoDup_cons; split;
              [rewrite ?elem_of_cons, ?elem_of_nil;
               intros Hx;
               repeat (destruct Hx as [Hx | Hx]; [discriminate Hx|]);
               contradiction|]);
      apply NoDup_nil; exact I. }
  clearbody h d. split.
  - eapply sublist_NoDup; eassumption.
  - apply sublist_length in Hsub.
    etransitivity; [exact Hsub|]. rewrite length_app.
    change (length ([detect.public_warning] ++ [detect.root_warning] ++ [d]
                    ++ [detect.age_warning] ++ [detect.unknown_warning]))
      with 5%nat.
    lia.
Qed.

Lemma Warnings_rules_iff_witness :
  detect.root_warning
    ∈ detect.Warnings fixtures.id_map fixtures.no_files fixtures.no_launchctl
        (90 * fixtures.day) detect.linux fixtures.forward_order
        fixtures.exposed_root_service /\
  ~ (detect.age_warning
       ∈ detect.Warnings fixtures.id_map fixtures.no_files fixtures.no_launchctl
           (90 * fixtures.day) detect.linux fixtures.forward_order
           fixtures.exposed_root_service).
Proof.
  destruct (Warnings_rules_iff fixtures.id_map fixtures.no_files fixtures.no_launchctl
              (90 * fixtures.day) detect.linux fixtures.forward_order
              fixtures.exposed_root_service
              (fixtures.mkProcess 300 1 "myjob" "myjob --serve" "root"
                 ["0.0.0.0"] "/srv")) as (_ & Hroot & _ & Hage & _);
    [reflexivity|].
  split.
  - apply Hroot. reflexivity.
  - intros Hin%Hage. vm_compute in Hin. discriminate Hin.
Defined.

(** * Further properties of the launchd enrichment *)

Module label_facts.

Import Strings detect helper_facts.

Lemma Contains_byte_cons (c d : ascii) (s : string) :
  Contains (String d s) (String c "") =
  bool_decide (d = c) || Contains s (String c "").
Proof.
  cbn [Contains HasPrefix].
  replace (bool_decide (c = d)) with (bool_decide (d = c))
    by (apply bool_decide_ext; split; congruence).
  destruct s; rewrite ?andb_true_r; reflexivity.
Qed.


End label_facts.



(** * How the builder and the detector fit together *)

Module composition_facts.

Import process process_facts.

Lemma linked_not_init (chain : list Process) (i : nat) (p : Process) :
  linked chain -> chain !! S i = Some p -> PID p <> 1 /\ PPID p <> 0.
Proof.
  revert i. induction chain as [|a chain IH]; intros i Hl Hp; [discriminate|].
  destruct chain as [|b chain]; [discriminate|].
  destruct Hl as (_ & H1 & H0 & Hl).
  destruct i as [|i].
  - injection Hp as <-. split; assumption.
  - apply (IH i Hl). exact Hp.
Qed.

Lemma detectInit_linux_Some (chain : list Process) :
  is_Some (detect.detectInit_linux chain) <->
  exists p, p ∈ chain /\ PID p = 1 /\ Command p = "systemd".
Proof.
  induction chain as [|a chain IH]; simpl.
  - split; [intros [x [=]] | intros (p & Hin & _)].
    apply elem_of_nil in Hin. contradiction.
  - destruct (bool_decide (PID a = 1)) eqn:H1; simpl.
    + destruct (bool_decide (Command a = "systemd")) eqn:H2.
      * apply bool_decide_eq_true in H1, H2.
        split; [intros _ | eauto].
        exists a. split; [apply list_elem_of_here | auto].
      * apply bool_decide_eq_false in H2. rewrite IH. split.
        -- intros (p & Hin & Hp). exists p.
           split; [apply list_elem_of_further|]; assumption.
        -- intros (p & [-> | Hin]%elem_of_cons & Hp1 & Hp2);
             [contradiction | eauto].
    + apply bool_decide_eq_false in H1. rewrite IH. split.
      * intros (p & Hin & Hp). exists p.
        split; [apply list_elem_of_further|]; assumption.
      * intros (p & [-> | Hin]%elem_of_cons & Hp1 & Hp2);
          [contradiction | eauto].
Qed.

End composition_facts.

(** X9: in a chain built by [BuildAncestry] only the first element can have
    identifier 1 or parent 0, so the linux [detectInit], which looks at
    every element, has a verdict exactly when the first element is systemd
    with identifier 1. *)
Theorem BuildAncestry_init_on_top (procs : gmap Z process.Stat) (fuel : nat)
    (target : Z) (chain : list process.Process) (err : option string) :
  process.BuildAncestry procs fuel target = Some (chain, err) ->
  (forall i p, chain !! i = Some p ->
     process.PID p = 1 \/ process.PPID p = 0 -> i = 0%nat) /\
  (forall launchctl_blame,
     is_Some (detect.detectInit launchctl_blame detect.linux chain) <->
     exists h, head chain = Some h /\ process.PID h = 1 /\
               process.Command h = "systemd").
Proof.
  unfold process.BuildAncestry.
  destruct (process.walk procs fuel target ∅ []) as [[chain' seen]|] eqn:Hw;
    [|discriminate].
  intros [= -> <-].
  pose proof (process_facts.walk_start_chain _ _ _ _ _ Hw) as (Hl & _).
  assert (forall i p, chain !! i = Some p ->
            process.PID p = 1 \/ process.PPID p = 0 -> i = 0%nat) as Htop.
  { intros [|i] p Hp Hinit; [reflexivity|].
    destruct (composition_facts.linked_not_init chain i p Hl Hp). tauto. }
  split; [exact Htop|].
  intros lc. unfold detect.detectInit.
  rewrite composition_facts.detectInit_linux_Some. split.
  - intros (p & [i Hi]%list_elem_of_lookup & H1 & Hc).
    rewrite (Htop i p Hi (or_introl H1)) in Hi.
    exists p. rewrite head_lookup. auto.
  - intros (h & Hh & H1 & Hc). exists h. split; [|auto].
    apply head_Some_elem_of. assumption.
Qed.

Lemma BuildAncestry_init_on_top_witness :
  exists h, head (fixtures.mkProcess 1 0 "systemd" "/sbin/init" "app" []
                    "/srv"
                  :: fixtures.mkProcess 40 1 "sshd" "sshd -D" "app" [] "/srv"
                  :: [fixtures.mkProcess 41 40 "job" "job --run" "app" []
                        "/srv"]) = Some h /\
            process.PID h = 1 /\ process.Command h = "systemd".
Proof.
  eapply (proj2 (BuildAncestry_init_on_top fixtures.healthy_tree 4 41 _ None
                   ltac:(vm_compute; reflexivity))
            fixtures.no_launchctl).
  vm_compute. eauto.
Defined.

(** X10: the reader's container label and the detector's container test
    agree on a cgroup file: the label is non-empty exactly when the file
    could be read and has one of the three markers, docker winning over
    containerd and containerd over kubepods; so an ancestry with a process
    for which the reader finds a container gets the container verdict. *)
Theorem detectContainer_agrees (cgroup : option string) :
  (process_linux.detectContainer cgroup <> "" <->
   exists s, cgroup = Some s /\ detect.has_container_marker s = true) /\
  (forall s, cgroup = Some s -> Strings.Contains s "docker" = true ->
             process_linux.detectContainer cgroup = "docker") /\
  (forall {P : Type} `{detect.Process P} MapLower ReadFile launchctl_blame
          goos order (ancestry : list P) (p : P),
     p ∈ ancestry ->
     ReadFile ("/proc/" ++ detect.itoa (detect.GetPID p) ++ "/cgroup")
       = cgroup ->
     process_linux.detectContainer cgroup <> "" ->
     detect.Detect MapLower ReadFile launchctl_blame goos order ancestry
       = detect.container).
Proof.
  assert (process_linux.detectContainer cgroup <> "" <->
          exists s, cgroup = Some s /\ detect.has_container_marker s = true)
    as Hiff.
  { unfold process_linux.detectContainer, detect.has_container_marker.
    destruct cgroup as [s|].
    - split.
      + intros Hne. exists s. split; [reflexivity|].
        destruct (Strings.Contains s "docker"); [reflexivity|].
        destruct (Strings.Contains s "containerd"); [reflexivity|].
        destruct (Strings.Contains s "kubepods"); [reflexivity|].
        exfalso. apply Hne. reflexivity.
      + intros (s' & [= <-] & Hm).
        destruct (Strings.Contains s "docker"); [discriminate|].
        destruct (Strings.Contains s "containerd"); [discriminate|].
        destruct (Strings.Contains s "kubepods"); [discriminate|].
        discriminate Hm.
    - split; [intros Hne; exfalso; apply Hne; reflexivity
             | intros (s & [=] & _)]. }
  split; [exact Hiff|]. split.
  - intros s -> Hd. unfold process_linux.detectContainer. rewrite Hd.
    reflexivity.
  - intros P HP MapLower ReadFile lc goos order ancestry p Hin Hrd Hne.
    apply Hiff in Hne as (s & -> & Hm).
    assert (detect.detectContainer ReadFile ancestry
            = Some detect.container) as Hc
      by (apply detect_facts.detectContainer_evidence; exists p, s; auto).
    unfold detect.Detect. rewrite Hc. reflexivity.
Qed.

Lemma detectContainer_agrees_witness :
  detect.Detect fixtures.id_map fixtures.pod_files fixtures.no_launchctl detect.linux
    fixtures.forward_order fixtures.supervised_in_pod = detect.container.
Proof.
  eapply (proj2 (proj2 (detectContainer_agrees
                          (Some "0::/kubepods/besteffort/pod42")))
            _ _ fixtures.id_map fixtures.pod_files fixtures.no_launchctl
            detect.linux
            fixtures.forward_order fixtures.supervised_in_pod
            (fixtures.mkProcess 1 0 "tini" "tini -- supervisord" "root" []
               "/")).
  - apply list_elem_of_here.
  - vm_compute. reflexivity.
  - vm_compute. discriminate.
Defined.

(** * Further properties of the linux reader *)

Module reader_facts.

Import Strings process_linux label_facts.

Lemma Split_nonempty (s : string) (sep : ascii) : Split s sep <> [].
Proof.
  destruct s as [|c s]; cbn [Split]; [discriminate|].
  destruct (bool_decide (c = sep)); [discriminate|].
  destruct (Split s sep); discriminate.
Qed.

Lemma Split_cases (s : string) (sep : ascii) :
  (Contains s (String sep "") = false /\ Split s sep = [s]) \/
  (Contains s (String sep "") = true /\
   exists a b rest, Split s sep = a :: b :: rest).
Proof.
  induction s as [|c s IH].
  - left. split; reflexivity.
  - rewrite Contains_byte_cons. cbn [Split].
    destruct (bool_decide (c = sep)) eqn:Hc.
    + right. split; [reflexivity|].
      pose proof (Split_nonempty s sep) as Hne.
      destruct (Split s sep) as [|b rest]; [contradiction|]. eauto.
    + rewrite orb_false_l.
      destruct IH as [[Hno ->] | (Hyes & a & b & rest & ->)].
      * left. split; [assumption | reflexivity].
      * right. split; [assumption|]. eauto.
Qed.

Lemma Split_no_sep (s : string) (sep : ascii) :
  Forall (fun x => Contains x (String sep "") = false) (Split s sep).
Proof.
  induction s as [|c s IH]; cbn [Split].
  - constructor; [reflexivity | constructor].
  - destruct (bool_decide (c = sep)) eqn:Hc.
    + constructor; [reflexivity | assumption].
    + pose proof (Split_nonempty s sep) as Hne.
      destruct (Split s sep) as [|a rest]; [contradiction|].
      apply Forall_cons in IH as [Ha Hrest].
      constructor; [|assumption].
      rewrite Contains_byte_cons, Hc, Ha. reflexivity.
Qed.

Lemma last_Forall {A} (Q : A -> Prop) (l : list A) (d : A) :
  Q d -> Forall Q l -> Q (List.last l d).
Proof.
  intros Hd Hl. induction Hl as [|x l Hx Hl IH]; [assumption|].
  destruct l; [assumption | exact IH].
Qed.

Lemma LastIndex_from_bound (s : string) (sep : ascii) (i found : Z) :
  LastIndex_from s sep i found = found \/
  i <= LastIndex_from s sep i found < i + Z.of_nat (String.length s).
Proof.
  revert i found. induction s as [|c s IH]; intros i found;
    cbn [LastIndex_from String.length]; [left; reflexivity|].
  destruct (IH (i + 1) (if bool_decide (c = sep) then i else found))
    as [-> | Hb].
  - destruct (bool_decide (c = sep)); [right; lia | left; reflexivity].
  - right. lia.
Qed.

Lemma substring_0_length (n : nat) (s : string) :
  (n <= String.length s)%nat -> String.length (substring 0 n s) = n.
Proof.
  revert s. induction n as [|n IH]; intros s Hn.
  - destruct s; reflexivity.
  - destruct s as [|c s]; [simpl in Hn; lia|].
    simpl in *. rewrite IH by lia. reflexivity.
Qed.

Lemma substring_0_prefix (n : nat) (s : string) :
  exists rest, s = substring 0 n s ++ rest.
Proof.
  revert s. induction n as [|n IH]; intros s.
  - exists s. destruct s; reflexivity.
  - destruct s as [|c s]; [exists ""; reflexivity|].
    destruct (IH s) as [rest Hrest]. exists rest.
    change (String c s = String c (substring 0 n s ++ rest)).
    rewrite <- Hrest. reflexivity.
Qed.

Lemma parentDir_length (path : string) :
  path <> "" ->
  (String.length (parentDir path) < String.length path)%nat.
Proof.
  intros Hne. unfold parentDir.
  case_bool_decide as Hidx.
  - destruct path; [contradiction | simpl; lia].
  - destruct (LastIndex_from_bound path "/" 0 (-1)) as [Heq | Hb];
      unfold LastIndex in *; [lia|].
    rewrite substring_0_length by lia. lia.
Qed.

End reader_facts.

(** X11: an address without a colon parses to the empty address and port
    0; for a line of the IPv6 table the address is [::] whatever the line
    says, loopback included, so every IPv6 listener counts as a public
    bind. *)
Theorem parseAddr_ipv6 (ParseInt16 : string -> Z)
    (DecodeString : string -> list Z) (fmt_d : Z -> string) (raw : string) :
  (Strings.Contains raw ":" = false ->
   forall ipv6,
     process_linux.parseAddr ParseInt16 DecodeString fmt_d raw ipv6
     = ("", 0)) /\
  (Strings.Contains raw ":" = true ->
   fst (process_linux.parseAddr ParseInt16 DecodeString fmt_d raw true)
     = "::" /\
   detect.isPublicBind
     [fst (process_linux.parseAddr ParseInt16 DecodeString fmt_d raw true)]
     = true).
Proof.
  unfold process_linux.parseAddr.
  destruct (reader_facts.Split_cases raw ":")
    as [[Hno ->] | (Hyes & a & b & rest & ->)].
  - split; [reflexivity | congruence].
  - split; [congruence | intros _; split; reflexivity].
Qed.

Lemma parseAddr_ipv6_witness :
  fst (process_linux.parseAddr (fun _ => 8080) (fun _ => []) detect.itoa
         "00000000000000000000000001000000:1F90" true) = "::".
Proof.
  apply (proj2 (parseAddr_ipv6 (fun _ => 8080) (fun _ => []) detect.itoa
                  "00000000000000000000000001000000:1F90")).
  vm_compute. reflexivity.
Defined.

(** X12: [parentDir] returns a strictly shorter prefix of a non-empty path,
    so the loop of [readGitRepo] ends after at most as many rounds as the
    working directory has bytes; the name it returns contains no slash. *)
Theorem readGitRepo_terminates (isDir : string -> bool) (cwd : string) :
  (cwd <> "" ->
   (String.length (process_linux.parentDir cwd) < String.length cwd)%nat /\
   exists rest, cwd = process_linux.parentDir cwd ++ rest) /\
  (forall fuel, (String.length cwd < fuel)%nat ->
     exists repo,
       process_linux.readGitRepo_loop isDir fuel cwd = Some repo /\
       Strings.Contains repo "/" = false).
Proof.
  split.
  - intros Hne. split; [apply reader_facts.parentDir_length; assumption|].
    unfold process_linux.parentDir. case_bool_decide.
    + exists cwd. reflexivity.
    + apply reader_facts.substring_0_prefix.
  - intros fuel. revert cwd.
    induction fuel as [|fuel IH]; intros cwd Hfuel; [lia|].
    cbn [process_linux.readGitRepo_loop].
    case_bool_decide as Hroot; [|exists ""; split; reflexivity].
    case_bool_decide as Hempty; [|exists ""; split; reflexivity].
    cbn [andb].
    destruct (isDir (cwd ++ "/.git")).
    + eexists. split; [reflexivity|].
      apply (reader_facts.last_Forall
               (fun x => Strings.Contains x "/" = false));
        [reflexivity | apply reader_facts.Split_no_sep].
    + apply IH.
      pose proof (reader_facts.parentDir_length cwd Hempty). lia.
Qed.

Lemma readGitRepo_terminates_witness :
  exists repo,
    process_linux.readGitRepo_loop
      (fun path => bool_decide (path = "/home/me/witr/.git")) 18
      "/home/me/witr/cmd" = Some repo /\
    Strings.Contains repo "/" = false.
Proof.
  apply (proj2 (readGitRepo_terminates
                  (fun path => bool_decide (path = "/home/me/witr/.git"))
                  "/home/me/witr/cmd")).
  vm_compute. lia.
Defined.

(** * Further properties of the supervisor scan and of the chain *)

Module supervisor_facts.

Import Strings detect detect_facts.

Section Scan.

Context {P : Type} `{Process P}.
Variable MapLower : string -> string.
Variable order : RangeOrder.

Lemma detectSupervisor_loop_None (ancestry : list P) n :
  valid_order order -> (n <= length ancestry)%nat ->
  detectSupervisor_loop MapLower order ancestry n = None ->
  forall i p, (i < n)%nat -> ancestry !! i = Some p ->
              no_supervisor_match MapLower p.
Proof.
  intros Hv. induction n as [|i IH]; intros Hn Hnone j q Hj Hq; [lia|].
  cbn [detectSupervisor_loop] in Hnone.
  destruct (lookup_lt_is_Some_2 ancestry i ltac:(lia)) as [p Hp].
  rewrite Hp in Hnone.
  fold (pm2_match MapLower p) in Hnone. fold (registry_match MapLower p) in Hnone.
  destruct (pm2_match MapLower p) eqn:Hpm; [discriminate|].
  destruct (registry_match MapLower p) eqn:Hreg; [discriminate|].
  destruct (rangeSupervisors (order i) (ToLower MapLower (GetCmdline p))) eqn:Hr;
    [discriminate|].
  destruct (decide (j = i)) as [-> | Hne].
  - assert (q = p) as -> by congruence.
    split; [assumption|]. split; [assumption|].
    apply (range_no_match MapLower order i p Hv). assumption.
  - apply (IH ltac:(lia) Hnone j q); [lia | assumption].
Qed.

End Scan.

End supervisor_facts.

(** X13: with the registry ranged over in any order, [detectSupervisor] has
    no verdict exactly when no process of the ancestry passes one of its
    three tests. *)
Theorem detectSupervisor_None_iff {P : Type} `{detect.Process P}
    (MapLower : string -> string) (order : detect.RangeOrder)
    (ancestry : list P) :
  detect.valid_order order ->
  (detect.detectSupervisor MapLower order ancestry = None <->
   Forall (detect.no_supervisor_match MapLower) ancestry).
Proof.
  intros Hv. split.
  - intros Hnone. apply Forall_lookup. intros i p Hp.
    eapply (supervisor_facts.detectSupervisor_loop_None MapLower order ancestry
              (length ancestry) Hv (Nat.le_refl _) Hnone i p); [|assumption].
    eapply lookup_lt_Some. eassumption.
  - intros Hall.
    rewrite <- (app_nil_l ancestry).
    rewrite detect_facts.detectSupervisor_skip_back by assumption.
    reflexivity.
Qed.

Lemma detectSupervisor_None_iff_witness :
  detect.detectSupervisor fixtures.id_map fixtures.forward_order fixtures.exposed_root_job
  = None.
Proof.
  apply (detectSupervisor_None_iff fixtures.id_map fixtures.forward_order
           fixtures.exposed_root_job forward_order_valid).
  constructor; [|constructor].
  split; [vm_compute; reflexivity|]. split; [vm_compute; reflexivity|].
  apply (detect_facts.range_no_match fixtures.id_map fixtures.forward_order 0);
    [exact forward_order_valid | vm_compute; reflexivity].
Defined.

(** X14: every process of a chain built by [BuildAncestry] has a positive
    identifier below 2^63 when the table holds such identifiers only, so the
    cgroup path [detectContainer] reads for it is /proc/, the identifier in
    decimal, /cgroup. *)
Theorem BuildAncestry_positive (procs : gmap Z process.Stat) (fuel : nat)
    (target : Z) (chain : list process.Process) (err : option string) :
  process.BuildAncestry procs fuel target = Some (chain, err) ->
  Forall (fun p => 0 < process.PID p) chain /\
  ((forall pid, pid ∈ dom procs -> pid < 2 ^ 63) ->
   Forall (fun p => Strings.decimal (detect.itoa (detect.GetPID p))
                    = Some (process.PID p)) chain).
Proof.
  unfold process.BuildAncestry.
  destruct (process.walk procs fuel target ∅ []) as [[chain' seen]|] eqn:Hw;
    [|discriminate].
  intros [= -> <-].
  pose proof (process_facts.walk_positive _ _ _ _ _ _ _ Hw
                (List.Forall_nil _)) as Hpos.
  pose proof (process_facts.walk_start_chain _ _ _ _ _ Hw)
    as (_ & _ & Hread & _).
  split; [exact Hpos|].
  intros Hbound. unfold process.all_read in Hread.
  rewrite Forall_forall in *. intros p Hin.
  apply helper_facts.itoa_decimal_nonneg.
  split; [specialize (Hpos p Hin); simpl in *; lia|].
  apply Hbound. apply elem_of_dom.
  destruct (process_facts.Read_Some _ _ _ (Hread p Hin)) as [_ Hsome].
  exact Hsome.
Qed.

Lemma BuildAncestry_positive_witness :
  Forall (fun p => 0 < process.PID p) [fixtures.orphan_5].
Proof.
  apply (proj1 (BuildAncestry_positive fixtures.orphan 2 5
                  [fixtures.orphan_5] None ltac:(vm_compute; reflexivity))).
Defined.
